(** * Submission ingestion of the uptime-service backend

    A shallow embedding of the Go package [delegation_backend] (the submit
    handler, the path builder and the S3 / local-file-system savers) and of
    the whitelist part of [cmd/delegation_backend/main_bpu.go], followed by
    the properties of the ingestion pipeline.

    Conventions.
    - A Go [string] is a [string]; a Go [[]byte] is a [list Byte.byte].
    - [time.Time] is an integer count of nanoseconds ([Z]); [Add] is [+] and
      [After] is [>].  Creation times come from RFC 3339 text (years 0 to
      9999), so the additions of the handler never leave the range of Go's
      representation.
    - [int64] request lengths are [Z]; the handler only compares them.
    - A Go map is a [gmap]; [range] over it is a fold over an enumeration of
      its entries, and the loop lemmas hold for every enumeration. *)

From Stdlib Require Import ZArith Strings.Ascii Strings.Byte.
From stdpp Require Import base option list gmap strings.

Local Open Scope Z_scope.

Abbreviation bytes := (list Byte.byte).
Abbreviation Time := Z.
Abbreviation Duration := Z.

(** ** Go string helpers *)

Module GoStrings.

(** [s[:n]]: the first [n] bytes; a slice bound beyond the length panics. *)
Definition slice_to (n : nat) (s : string) : option string :=
  if (n <=? String.length s)%nat then Some (String.substring 0 n s) else None.

(** [strings.HasPrefix(s, p)]. *)
Definition HasPrefix (s p : string) : bool := String.prefix p s.

(** [strings.Contains(s, sub)]. *)
Fixpoint Contains (s sub : string) : bool :=
  String.prefix sub s ||
  match s with
  | EmptyString => false
  | String _ rest => Contains rest sub
  end.

(** [strings.Join(elems, sep)]. *)
Definition Join (elems : list string) (sep : string) : string :=
  String.concat sep elems.

(** The one-byte string holding a double quote. *)
Definition dq : string := String (ascii_of_nat 34) EmptyString.

(** [[]byte(s)]. *)
Definition to_bytes (s : string) : bytes := String.list_byte_of_string s.

(** No byte of [s] is [c]. *)
Fixpoint free_of (c : ascii) (s : string) : bool :=
  match s with
  | EmptyString => true
  | String a rest => negb (Ascii.eqb a c) && free_of c rest
  end.

End GoStrings.

(** ** Path builder *)

Record Paths := mkPaths { Meta : string; Block : string }.

Section PathBuilder.

(** The key type [Pk] and its [String] method are declared outside the
    files at hand; they are parameters of the development. *)
Context {Pk : Type}.
Variable Pk_String : Pk -> string.

(** [MakePathsImpl]; [None] is the run-time panic of [submittedAt[:10]] on
    a timestamp shorter than ten bytes. *)
Definition MakePathsImpl (submittedAt blockHash : string) (submitter : Pk)
  : option Paths :=
  match GoStrings.slice_to 10 submittedAt with
  | Some day =>
      Some {| Meta := GoStrings.Join
                        ["submissions"; day;
                         submittedAt +:+ "-" +:+ Pk_String submitter +:+ ".json"]
                        "/";
              Block := "blocks/" +:+ blockHash +:+ ".dat" |}
  | None => None
  end.

(** [makePaths]: [formatRFC3339 t] stands for
    [t.UTC().Format(time.RFC3339)]. *)
Definition makePaths (formatRFC3339 : Time -> string)
    (submittedAt : Time) (blockHash : string) (submitter : Pk) : option Paths :=
  MakePathsImpl (formatRFC3339 submittedAt) blockHash submitter.

End PathBuilder.

(** ** Data of the handler *)

Inductive Level := Debug | Info | Warn | Error.

(** The submission schema is declared outside the files at hand; the record
    has the fields the handler reads, and [Extra] stands for the remaining
    payload fields, which the handler never inspects. *)
Record submitRequestData := mkData {
  CreatedAt : Time;
  Block_data : bytes;
  Extra : bytes
}.

Record submitRequest (Pk Sig : Type) := mkReq {
  Submitter : Pk;
  ReqSig : Sig;
  Data : submitRequestData
}.
Arguments mkReq {Pk Sig}.
Arguments Submitter {Pk Sig}.
Arguments ReqSig {Pk Sig}.
Arguments Data {Pk Sig}.

(** [http.Request], with the outcome of the connection's reads and writes:
    [Body] is what the body stream yields before it ends, [BodyErr] the
    error it ends with instead of EOF, [WriteErr] the error of a write to
    the response. *)
Record Request := mkRequest {
  Method : string;
  URLPath : string;
  RemoteAddr : string;
  ContentLength : Z;
  Body : bytes;
  BodyErr : option string;
  XForwardedFor : string;
  WriteErr : option string
}.

(** [ObjectsToSave], a [map[string][]byte]. *)
Abbreviation ObjectsToSave := (gmap string bytes).

(** ** Messages

    The format strings of the log lines and the texts of the error
    responses, as the source has them. *)

Module Msg.

Definition received_request : string :=
  "Received request: method=%s path=%s remote_addr=%s content_length=%d".
Definition missing_content_length : string :=
  "Request missing Content-Length header".
Definition payload_too_large : string :=
  "Request payload too large: %d bytes (max: %d)".
Definition body_read_error : string :=
  "Error while reading /submit request's body: %v".
Definition unmarshal_error : string :=
  "Error while unmarshaling JSON of /submit request's body: %v, body preview: %s".
Definition parsed : string :=
  "Successfully parsed submission from submitter: %s".
Definition required_failed : string :=
  "Required fields validation failed for submitter: %s".
Definition not_in_whitelist : string :=
  "Submitter not in whitelist: %s".
Definition in_whitelist : string :=
  "Submitter %s found in whitelist".
Definition whitelist_disabled : string :=
  "Whitelist disabled, accepting submitter: %s".
Definition created_at_future : string :=
  "Field created_at is a timestamp in future: %v".
Definition sign_payload_error : string :=
  "Error while making sign payload: %v".
Definition meta_marshal_error : string :=
  "Error while marshaling JSON for metaToBeSaved: %v".
Definition saving : string :=
  "Saving submission for submitter %s: block_hash=%s meta_path=%s block_path=%s".
Definition ok_write_error : string :=
  "Error while responding with ok status to the user: %v".
Definition processed : string :=
  "Successfully processed submission from %s".
Definition responding_with_error : string :=
  "Responding with error: %s".
Definition respond_failed : string :=
  "Failed to respond with error status: %v".
Definition err_reading_body : string :=
  "Error reading the body".
Definition err_decoding : string :=
  "Error decoding payload".
Definition err_required : string :=
  "One of required fields wasn't provided".
Definition err_not_registered : string :=
  "Submitter is not registered: ".
Definition err_future : string :=
  "Field created_at is a timestamp in future".
Definition err_server : string :=
  "Unexpected server error".
Definition err_signature : string :=
  "Invalid signature".
Definition err_too_many : string :=
  "Too many requests per hour".
Definition s3_probe_failed : string :=
  "S3Save: Error when checking if block exists, but will continue with block save: %s, error: %v".
Definition s3_saving : string :=
  "S3Save: saving %s".
Definition s3_put_failed : string :=
  "S3Save: Error while saving metadata: %v".
Definition fs_exists : string :=
  "LocalFileSystemSave: file already exists: %s".
Definition fs_mkdir_failed : string :=
  "LocalFileSystemSave: Error creating directories for %s: %v".
Definition fs_saving : string :=
  "LocalFileSystemSave: saving %s".
Definition fs_write_failed : string :=
  "Error writing to file %s: %v".

End Msg.

(** ** Storage destinations *)

Inductive OsError := ErrNotExist | ErrOther (msg : string).

(** Calls a saver makes, with the result each call returned. *)
Inductive StoreCall :=
| SLog (lvl : Level) (fmt : string)
| HeadObjectCall (bucket key : string) (err : option string)
| PutObjectCall (bucket key : string) (body : bytes) (err : option string)
| StatCall (path : string) (err : option OsError)
| MkdirAllCall (path : string) (err : option string)
| WriteFileCall (path : string) (data : bytes) (err : option string).

(** The destinations: the S3 objects by (bucket, key), the files by path,
    the failures the environment injects into the coming calls (one entry
    consumed per call, [None] or an exhausted list meaning none), and the
    calls made so far, oldest first. *)
Record Storage := mkStorage {
  s3_objects : gmap (string * string) bytes;
  fs_files : gmap string bytes;
  faults : list (option string);
  calls : list StoreCall
}.

Definition pop_fault (st : Storage) : option string * Storage :=
  match faults st with
  | [] => (None, st)
  | f :: rest =>
      (f, {| s3_objects := s3_objects st; fs_files := fs_files st;
             faults := rest; calls := calls st |})
  end.

Definition record_call (c : StoreCall) (st : Storage) : Storage :=
  {| s3_objects := s3_objects st; fs_files := fs_files st;
     faults := faults st; calls := calls st ++ [c] |}.

Definition store_log (lvl : Level) (fmt : string) (st : Storage) : Storage :=
  record_call (SLog lvl fmt) st.

(** The calls made between an earlier and a later state. *)
Definition new_calls (st st' : Storage) : list StoreCall :=
  drop (length (calls st)) (calls st').

(** No failure is injected into the coming calls. *)
Definition fault_free (st : Storage) : Prop :=
  Forall (fun f => f = None) (faults st).

Definition NotFoundError : string :=
  "operation error S3: HeadObject, https response error StatusCode: 404, api error NotFound: Not Found".

(** [s3.Client.HeadObject]: the injected failure if there is one, otherwise
    no error for a stored object and the service's not-found error for a
    missing one. *)
Definition HeadObject (bucket key : string) (st : Storage)
  : option string * Storage :=
  let '(fault, st1) := pop_fault st in
  let err :=
    match fault with
    | Some e => Some e
    | None =>
        match s3_objects st1 !! (bucket, key) with
        | Some _ => None
        | None => Some NotFoundError
        end
    end in
  (err, record_call (HeadObjectCall bucket key err) st1).

(** [s3.Client.PutObject]: the injected failure, or the object stored. *)
Definition PutObject (bucket key : string) (body : bytes) (st : Storage)
  : option string * Storage :=
  let '(fault, st1) := pop_fault st in
  let st2 :=
    match fault with
    | Some _ => st1
    | None =>
        {| s3_objects := <[(bucket, key) := body]> (s3_objects st1);
           fs_files := fs_files st1; faults := faults st1; calls := calls st1 |}
    end in
  (fault, record_call (PutObjectCall bucket key body fault) st2).

(** [os.Stat]. *)
Definition Stat (path : string) (st : Storage) : option OsError * Storage :=
  let '(fault, st1) := pop_fault st in
  let err :=
    match fault with
    | Some e => Some (ErrOther e)
    | None =>
        match fs_files st1 !! path with
        | Some _ => None
        | None => Some ErrNotExist
        end
    end in
  (err, record_call (StatCall path err) st1).

(** [os.IsNotExist]. *)
Definition IsNotExist (err : option OsError) : bool :=
  match err with
  | Some ErrNotExist => true
  | _ => false
  end.

(** [os.MkdirAll]; directories carry no content and are not kept. *)
Definition MkdirAll (path : string) (st : Storage) : option string * Storage :=
  let '(fault, st1) := pop_fault st in
  (fault, record_call (MkdirAllCall path fault) st1).

(** [os.WriteFile]. *)
Definition WriteFile (path : string) (data : bytes) (st : Storage)
  : option string * Storage :=
  let '(fault, st1) := pop_fault st in
  let st2 :=
    match fault with
    | Some _ => st1
    | None =>
        {| s3_objects := s3_objects st1;
           fs_files := <[path := data]> (fs_files st1);
           faults := faults st1; calls := calls st1 |}
    end in
  (fault, record_call (WriteFileCall path data fault) st2).

(** [AwsContext]; the client is the [Storage] the saver runs on. *)
Record AwsContext := mkAwsContext {
  BucketName : string;
  Prefix : string
}.

(** [ctx.Prefix + "/" + path]. *)
Definition full_key (ctx : AwsContext) (path : string) : string :=
  Prefix ctx +:+ "/" +:+ path.

(** One iteration of the loop of [S3Save]. *)
Definition S3Save_body (ctx : AwsContext) (st : Storage) (obj : string * bytes)
  : Storage :=
  let '(path, bs) := obj in
  let fullKey := full_key ctx path in
  let '(skip, st1) :=
    if GoStrings.HasPrefix path "blocks/" then
      let '(err, st') := HeadObject (BucketName ctx) fullKey st in
      match err with
      | None => (true, st')
      | Some e =>
          (false,
           if negb (GoStrings.Contains e "NotFound")
           then store_log Warn Msg.s3_probe_failed st'
           else st')
      end
    else (false, st) in
  if skip then st1
  else
    let st2 := store_log Info Msg.s3_saving st1 in
    let '(err, st3) := PutObject (BucketName ctx) fullKey bs st2 in
    match err with
    | Some _ => store_log Warn Msg.s3_put_failed st3
    | None => st3
    end.

(** The loop of [S3Save] over the entries in the order [range] yields them. *)
Definition S3Save_range (ctx : AwsContext) (entries : list (string * bytes))
    (st : Storage) : Storage :=
  foldl (S3Save_body ctx) st entries.

Definition S3Save (ctx : AwsContext) (objs : ObjectsToSave) (st : Storage)
  : Storage :=
  S3Save_range ctx (map_to_list objs) st.

(** [st'] has the calls of [st] and possibly more. *)
Definition extends (st st' : Storage) : Prop :=
  exists cs, calls st' = calls st ++ cs.

(** A log line among the calls. *)
Definition is_SLog (c : StoreCall) : Prop :=
  match c with
  | SLog _ _ => True
  | _ => False
  end.

(** The shapes the calls of one iteration of [S3Save] take for an object:
    written without a probe, skipped after a probe that found it, or
    written after a probe that failed ([S3Save_body_calls] below proves
    that the iteration follows them). *)
Inductive entry_calls (ctx : AwsContext) (path : string) (bs : bytes)
  : list StoreCall -> Prop :=
| entry_unprobed perr tail :
    GoStrings.HasPrefix path "blocks/" = false ->
    Forall is_SLog tail ->
    entry_calls ctx path bs
      (SLog Info Msg.s3_saving
         :: PutObjectCall (BucketName ctx) (full_key ctx path) bs perr :: tail)
| entry_skipped :
    GoStrings.HasPrefix path "blocks/" = true ->
    entry_calls ctx path bs
      [HeadObjectCall (BucketName ctx) (full_key ctx path) None]
| entry_probe_failed e mid perr tail :
    GoStrings.HasPrefix path "blocks/" = true ->
    Forall is_SLog mid -> Forall is_SLog tail ->
    entry_calls ctx path bs
      (HeadObjectCall (BucketName ctx) (full_key ctx path) (Some e)
         :: mid
         ++ PutObjectCall (BucketName ctx) (full_key ctx path) bs perr :: tail).

Section LocalFileSystem.

(** [filepath.Join] and [filepath.Dir] of the Go library. *)
Variable filepath_Join : string -> string -> string.
Variable filepath_Dir : string -> string.

(** One iteration of the loop of [LocalFileSystemSave]. *)
Definition LocalFileSystemSave_body (directory : string) (st : Storage)
    (obj : string * bytes) : Storage :=
  let '(path, bs) := obj in
  let fullPath := filepath_Join directory path in
  let '(serr, st1) := Stat fullPath st in
  if negb (IsNotExist serr) then
    store_log Warn Msg.fs_exists st1
  else
    let '(merr, st2) := MkdirAll (filepath_Dir fullPath) st1 in
    match merr with
    | Some _ =>
        store_log Error
          Msg.fs_mkdir_failed st2
    | None =>
        let st3 := store_log Info Msg.fs_saving st2 in
        let '(werr, st4) := WriteFile fullPath bs st3 in
        match werr with
        | Some _ => store_log Warn Msg.fs_write_failed st4
        | None => st4
        end
    end.

Definition LocalFileSystemSave_range (entries : list (string * bytes))
    (directory : string) (st : Storage) : Storage :=
  foldl (LocalFileSystemSave_body directory) st entries.

Definition LocalFileSystemSave (objs : ObjectsToSave) (directory : string)
    (st : Storage) : Storage :=
  LocalFileSystemSave_range (map_to_list objs) directory st.

End LocalFileSystem.

Section LocalFileSystemCalls.

Variable filepath_Join : string -> string -> string.
Variable filepath_Dir : string -> string.

(** The shapes the calls of one iteration take: skipped after the check,
    given up after the directories could not be made, or written. *)
Inductive file_calls (dir path : string) (bs : bytes)
  : list StoreCall -> Prop :=
| file_skipped serr :
    serr <> Some ErrNotExist ->
    file_calls dir path bs
      [StatCall (filepath_Join dir path) serr; SLog Warn Msg.fs_exists]
| file_no_directory e :
    file_calls dir path bs
      [StatCall (filepath_Join dir path) (Some ErrNotExist);
       MkdirAllCall (filepath_Dir (filepath_Join dir path)) (Some e);
       SLog Error Msg.fs_mkdir_failed]
| file_written werr tail :
    Forall is_SLog tail ->
    file_calls dir path bs
      (StatCall (filepath_Join dir path) (Some ErrNotExist)
         :: MkdirAllCall (filepath_Dir (filepath_Join dir path)) None
         :: SLog Info Msg.fs_saving
         :: WriteFileCall (filepath_Join dir path) bs werr :: tail).

End LocalFileSystemCalls.

(** ** Rate limiter and authorization snapshot *)

Section Limiter.

Context {Pk : Type} `{Countable Pk}.

(** Modelled from the spec: the type [AttemptCounter], whose declaration
    and methods are outside the files at hand.  Section 4.1: per key, the
    attempts whose timestamp falls within the trailing window ending now;
    window length and maximum are configuration inputs. *)
Record AttemptCounter := mkCounter {
  window : Duration;
  maxAttempts : nat;
  attempts : gmap Pk (list Time)
}.

(** Modelled from the spec: the length of the window, one hour ([main]
    passes the hourly quota and the handler answers "Too many requests
    per hour"). *)
Definition ONE_HOUR : Duration := 3600 * 1000000000.

(** Modelled from the spec: [NewAttemptCounter], called by [main] with the
    hourly quota. *)
Definition NewAttemptCounter (requestsPerPkHourly : nat) : AttemptCounter :=
  {| window := ONE_HOUR; maxAttempts := requestsPerPkHourly; attempts := ∅ |}.

(** Modelled from the spec: the pruning step of [RecordAttempt], which
    keeps the entries of a record that are not older than the window at
    [now]. *)
Definition prune (win : Duration) (now : Time) (l : list Time) : list Time :=
  filter (fun t => now - t <= win) l.

(** Modelled from the spec: [AttemptCounter.RecordAttempt].  Section 4.1:
    prune entries older than the window, then if the remaining count is at
    least the configured maximum, return false without recording;
    otherwise append the new attempt timestamp and return true. *)
Definition RecordAttempt (ac : AttemptCounter) (now : Time) (pk : Pk)
  : bool * AttemptCounter :=
  let live := prune (window ac) now (attempts ac !!! pk) in
  if (maxAttempts ac <=? length live)%nat then
    (false,
     {| window := window ac; maxAttempts := maxAttempts ac;
        attempts := <[pk := live]> (attempts ac) |})
  else
    (true,
     {| window := window ac; maxAttempts := maxAttempts ac;
        attempts := <[pk := live ++ [now]]> (attempts ac) |}).

(** A run of calls, each at its own time and for its own key: the
    outcomes in order and the final counter. *)
Fixpoint RecordAttempts (ac : AttemptCounter) (cs : list (Time * Pk))
  : list bool * AttemptCounter :=
  match cs with
  | [] => ([], ac)
  | (now, pk) :: rest =>
      let '(ok, ac1) := RecordAttempt ac now pk in
      let '(oks, ac2) := RecordAttempts ac1 rest in
      (ok :: oks, ac2)
  end.

(** The outcomes of the calls made for key [k] in a run of calls. *)
Fixpoint outcomes_for (k : Pk) (ac : AttemptCounter) (cs : list (Time * Pk))
  : list bool :=
  match cs with
  | [] => []
  | (now, pk) :: rest =>
      let '(ok, ac1) := RecordAttempt ac now pk in
      if decide (pk = k) then ok :: outcomes_for k ac1 rest
      else outcomes_for k ac1 rest
  end.

(** Two counters that agree on the configuration and on the record of
    [k]. *)
Definition agree_on (k : Pk) (ac ac' : AttemptCounter) : Prop :=
  window ac = window ac' /\ maxAttempts ac = maxAttempts ac' /\
  attempts ac !!! k = attempts ac' !!! k.

(** Modelled from the spec: the authorization snapshot [Whitelist] and its
    holder [WhitelistMVar], declared outside the files at hand.  Section
    4.2: a single reference to an immutable set, swapped by [Replace]. *)
Definition Whitelist := gset Pk.

(** Modelled from the spec: [WhitelistMVar], the holder of the current
    snapshot. *)
Record WhitelistMVar := mkMVar { snapshot : Whitelist }.

(** Modelled from the spec: [WhitelistMVar.ReadWhitelist], section 4.2
    ([Read]). *)
Definition ReadWhitelist (m : WhitelistMVar) : Whitelist := snapshot m.

(** Modelled from the spec: [WhitelistMVar.Replace], section 4.2. *)
Definition Replace (new : Whitelist) (m : WhitelistMVar) : WhitelistMVar :=
  {| snapshot := new |}.

End Limiter.

Arguments AttemptCounter Pk {_ _}.
Arguments agree_on {Pk _ _} k ac ac'.
Arguments Whitelist Pk {_ _}.
Arguments WhitelistMVar Pk {_ _}.

(** ** Positions in a sequence of events *)

Section Positions.

Context {A : Type} (p : A -> bool).

(** What follows the first element that satisfies [p]. *)
Fixpoint after_first (l : list A) : list A :=
  match l with
  | [] => []
  | x :: rest => if p x then rest else after_first rest
  end.

(** What precedes the first element that satisfies [p]. *)
Fixpoint before_first (l : list A) : list A :=
  match l with
  | [] => []
  | x :: rest => if p x then [] else x :: before_first rest
  end.

End Positions.

(** ** The submit handler *)

Section Handler.

Context {Pk : Type} `{Countable Pk} {Sig : Type}.

(** Constants and functions the handler uses that are declared outside
    the files at hand (package constants, methods of the submission
    schema, the signature library) or in Go's libraries. *)
Record Externals := mkExternals {
  MAX_SUBMIT_PAYLOAD_SIZE : Z;
  TIME_DIFF_DELTA : Duration;
  Pk_String : Pk -> string;
  json_Unmarshal : bytes -> option (submitRequest Pk Sig);
  CheckRequiredFields : submitRequest Pk Sig -> bool;
  MakeSignPayload : submitRequestData -> option bytes;
  blake2b_Sum256 : bytes -> bytes;
  verifySig : Pk -> Sig -> bytes -> Z -> bool;
  GetBlockDataHash : submitRequest Pk Sig -> string;
  MakeMetaToBeSaved : submitRequest Pk Sig -> string -> option bytes;
  formatRFC3339 : Time -> string;
  (** the string encoder of [encoding/json], quotes included *)
  json_quote : string -> string
}.

(** What the handler shares with the rest of the process. *)
Record World := mkWorld {
  clock : Time;
  counter : AttemptCounter Pk;
  whitelist : WhitelistMVar Pk;
  storage : Storage
}.

(** [App]; [SubmitCounter] and [Whitelist] point into the [World]. *)
Record App := mkApp {
  WhitelistDisabled : bool;
  VerifySignatureDisabled : bool;
  NetworkId : Z;
  Save : ObjectsToSave -> Storage -> Storage;
  Now : World -> Time;
  IsReady : bool
}.

(** What one invocation of the handler does, in order. *)
Inductive Event :=
| ELog (lvl : Level) (fmt : string)
| EWriteHeader (code : Z)
| EWrite (bs : bytes)
| EReadBody
| EUnmarshal
| ECheckRequiredFields
| EReadWhitelist
| ENow (t : Time)
| EMakeSignPayload
| EVerifySig (ok : bool)
| ERecordAttempt (pk : Pk) (allowed : bool)
| EMakePaths
| EMakeMeta
| ESave (objs : ObjectsToSave)
| EPanic.

(** The [http.ResponseWriter] (status set by [WriteHeader], bytes handed
    to [Write]), the events so far, and the world. *)
Record HState := mkHState {
  resp_status : option Z;
  resp_body : bytes;
  trace : list Event;
  world : World
}.

Definition start (w : World) : HState :=
  {| resp_status := None; resp_body := []; trace := []; world := w |}.

Definition emit (e : Event) (h : HState) : HState :=
  {| resp_status := resp_status h; resp_body := resp_body h;
     trace := trace h ++ [e]; world := world h |}.

Definition log (lvl : Level) (fmt : string) (h : HState) : HState :=
  emit (ELog lvl fmt) h.

Definition set_world (w : World) (h : HState) : HState :=
  {| resp_status := resp_status h; resp_body := resp_body h;
     trace := trace h; world := w |}.

(** [w.WriteHeader(code)]: only the first status counts. *)
Definition WriteHeader (code : Z) (h : HState) : HState :=
  emit (EWriteHeader code)
    {| resp_status := match resp_status h with
                      | None => Some code
                      | Some c => Some c
                      end;
       resp_body := resp_body h; trace := trace h; world := world h |}.

(** [io.Copy(w, bytes.NewReader(bs))]: a write before any [WriteHeader]
    sends status 200. *)
Definition Write (bs : bytes) (h : HState) : HState :=
  emit (EWrite bs)
    {| resp_status := match resp_status h with
                      | None => Some 200
                      | Some c => Some c
                      end;
       resp_body := resp_body h ++ bs; trace := trace h; world := world h |}.

Variable X : Externals.

(** The acknowledgement of an accepted submission, [{"status":"ok"}]. *)
Definition ok_body : bytes :=
  GoStrings.to_bytes
    ("{" +:+ GoStrings.dq +:+ "status" +:+ GoStrings.dq +:+ ":"
     +:+ GoStrings.dq +:+ "ok" +:+ GoStrings.dq +:+ "}").

(** [json.Marshal(errorResponse{msg})]; it cannot fail on a struct with
    one string field. *)
Definition marshal_errorResponse (msg : string) : bytes :=
  GoStrings.to_bytes
    ("{" +:+ GoStrings.dq +:+ "error" +:+ GoStrings.dq +:+ ":"
     +:+ json_quote X msg +:+ "}").

Definition writeErrorResponse (r : Request) (msg : string) (h : HState)
  : HState :=
  let h1 := log Debug Msg.responding_with_error h in
  let h2 := Write (marshal_errorResponse msg) h1 in
  match WriteErr r with
  | Some _ => log Debug Msg.respond_failed h2
  | None => h2
  end.

(** [io.ReadAll(io.LimitReader(r.Body, r.ContentLength))]. *)
Definition read_body (r : Request) : bytes * option string :=
  let n := Z.to_nat (ContentLength r) in
  if (n <=? length (Body r))%nat then (take n (Body r), None)
  else (Body r, BodyErr r).

(** [SubmitCounter.RecordAttempt] on the shared counter, at the time of
    the call. *)
Definition record_attempt (pk : Pk) (h : HState) : bool * HState :=
  let w := world h in
  let res := RecordAttempt (counter w) (clock w) pk in
  (res.1,
   emit (ERecordAttempt pk res.1)
     (set_world {| clock := clock w; counter := res.2;
                   whitelist := whitelist w; storage := storage w |} h)).

(** [h.app.Save(toSave)]. *)
Definition save (app : App) (objs : ObjectsToSave) (h : HState) : HState :=
  let w := world h in
  emit (ESave objs)
    (set_world {| clock := clock w; counter := counter w;
                  whitelist := whitelist w;
                  storage := Save app objs (storage w) |} h).

(** The handler from rate limiting on. *)
Definition ServeHTTP_persist (app : App) (r : Request)
    (req : submitRequest Pk Sig) (submittedAt : Time) (h : HState) : HState :=
  let '(passesAttemptLimit, h) := record_attempt (Submitter req) h in
  if negb passesAttemptLimit then
    writeErrorResponse r Msg.err_too_many (WriteHeader 429 h)
  else
    let blockHash := GetBlockDataHash X req in
    let h := emit EMakePaths h in
    match makePaths (Pk_String X) (formatRFC3339 X) submittedAt blockHash
            (Submitter req) with
    | None => emit EPanic h
    | Some ps =>
        let remoteAddr :=
          if String.eqb (XForwardedFor r) EmptyString then RemoteAddr r
          else XForwardedFor r in
        let h := emit EMakeMeta h in
        match MakeMetaToBeSaved X req remoteAddr with
        | None =>
            writeErrorResponse r Msg.err_server
              (WriteHeader 500 (log Error Msg.meta_marshal_error h))
        | Some metaBytes =>
            let toSave : ObjectsToSave :=
              <[Block ps := Block_data (Data req)]>
                (<[Meta ps := metaBytes]> ∅) in
            let h := log Info Msg.saving h in
            let h := save app toSave h in
            let h := Write ok_body h in
            match WriteErr r with
            | Some _ => log Debug Msg.ok_write_error h
            | None => log Info Msg.processed h
            end
        end
    end.

(** The handler from the freshness check on. *)
Definition ServeHTTP_checked (app : App) (r : Request)
    (req : submitRequest Pk Sig) (h : HState) : HState :=
  let submittedAt := Now app (world h) in
  let h := emit (ENow submittedAt) h in
  if CreatedAt (Data req) + TIME_DIFF_DELTA X >? submittedAt then
    writeErrorResponse r Msg.err_future
      (WriteHeader 400 (log Debug Msg.created_at_future h))
  else if negb (VerifySignatureDisabled app) then
    let h := emit EMakeSignPayload h in
    match MakeSignPayload X (Data req) with
    | None =>
        writeErrorResponse r Msg.err_server
          (WriteHeader 500 (log Error Msg.sign_payload_error h))
    | Some payload =>
        let hash := blake2b_Sum256 X payload in
        let ok := verifySig X (Submitter req) (ReqSig req) hash (NetworkId app) in
        let h := emit (EVerifySig ok) h in
        if negb ok then
          writeErrorResponse r Msg.err_signature (WriteHeader 401 h)
        else ServeHTTP_persist app r req submittedAt h
    end
  else ServeHTTP_persist app r req submittedAt h.

(** The handler from the decoded request on. *)
Definition ServeHTTP_decoded (app : App) (r : Request)
    (req : submitRequest Pk Sig) (h : HState) : HState :=
  let h := log Info Msg.parsed h in
  let h := emit ECheckRequiredFields h in
  if negb (CheckRequiredFields X req) then
    writeErrorResponse r Msg.err_required
      (WriteHeader 400 (log Warn Msg.required_failed h))
  else if negb (WhitelistDisabled app) then
    let wl := ReadWhitelist (whitelist (world h)) in
    let h := emit EReadWhitelist h in
    if negb (bool_decide (Submitter req ∈ wl)) then
      writeErrorResponse r
        (Msg.err_not_registered +:+ Pk_String X (Submitter req))
        (WriteHeader 401 (log Warn Msg.not_in_whitelist h))
    else ServeHTTP_checked app r req (log Debug Msg.in_whitelist h)
  else ServeHTTP_checked app r req (log Debug Msg.whitelist_disabled h).

(** [SubmitH.ServeHTTP]. *)
Definition ServeHTTP (app : App) (r : Request) (w : World) : HState :=
  let h := log Info Msg.received_request (start w) in
  if ContentLength r =? -1 then
    WriteHeader 411 (log Warn Msg.missing_content_length h)
  else if ContentLength r >? MAX_SUBMIT_PAYLOAD_SIZE X then
    WriteHeader 413 (log Warn Msg.payload_too_large h)
  else
    let h := emit EReadBody h in
    let '(body, err1) := read_body r in
    if bool_decide (err1 ≠ None)
       || negb (Z.of_nat (length body) =? ContentLength r) then
      writeErrorResponse r Msg.err_reading_body
        (WriteHeader 400 (log Debug Msg.body_read_error h))
    else
      let h := emit EUnmarshal h in
      match json_Unmarshal X body with
      | None =>
          writeErrorResponse r Msg.err_decoding
            (WriteHeader 400 (log Error Msg.unmarshal_error h))
      | Some req => ServeHTTP_decoded app r req h
      end.

(** Events of answering: a log line or a write to the response. *)
Definition is_response_event (e : Event) : bool :=
  match e with
  | ELog _ _ | EWrite _ => true
  | _ => false
  end.

Definition is_WriteHeader (e : Event) : bool :=
  match e with
  | EWriteHeader _ => true
  | _ => false
  end.

Definition is_Save (e : Event) : bool :=
  match e with
  | ESave _ => true
  | _ => false
  end.

(** The tolerance of the freshness check: the handler adds the constant
    [TIME_DIFF_DELTA] to the creation time before it compares with the
    current time, so the creation time may be ahead of the current time
    by the opposite of the constant. *)
Definition clock_skew_tolerance : Duration := - TIME_DIFF_DELTA X.

End Handler.

Arguments Externals Pk Sig : clear implicits.
Arguments World Pk {_ _}.
Arguments App Pk {_ _}.
Arguments Event Pk : clear implicits.
Arguments HState Pk {_ _}.

(** ** Small helpers of the package *)

Module Backend.

(** [min]. *)
Definition min (a b : Z) : Z := if a <? b then a else b.

(** [b[:n]] on a byte slice: a bound below zero or beyond the length
    panics. *)
Definition slice_to (n : Z) (b : bytes) : option bytes :=
  if (0 <=? n) && (n <=? Z.of_nat (length b)) then Some (take (Z.to_nat n) b)
  else None.

(** The body preview of the decode-error log line,
    [string(body[:min(len(body), 200)])]. *)
Definition body_preview (body : bytes) : option bytes :=
  slice_to (min (Z.of_nat (length body)) 200) body.

End Backend.

(** ** Variations of a request, the application and the world *)

Section Variants.

Context {Pk : Type} `{Countable Pk}.

(** The application with another function in [app.Save]. *)
Definition with_Save (save' : ObjectsToSave -> Storage -> Storage)
    (app : App Pk) : App Pk :=
  {| WhitelistDisabled := WhitelistDisabled app;
     VerifySignatureDisabled := VerifySignatureDisabled app;
     NetworkId := NetworkId app; Save := save'; Now := Now app;
     IsReady := IsReady app |}.

(** The request with another body stream. *)
Definition with_Body (body : bytes) (err : option string) (r : Request)
  : Request :=
  {| Method := Method r; URLPath := URLPath r; RemoteAddr := RemoteAddr r;
     ContentLength := ContentLength r; Body := body; BodyErr := err;
     XForwardedFor := XForwardedFor r; WriteErr := WriteErr r |}.

(** The request on a connection whose writes fail or not. *)
Definition with_WriteErr (err : option string) (r : Request) : Request :=
  {| Method := Method r; URLPath := URLPath r; RemoteAddr := RemoteAddr r;
     ContentLength := ContentLength r; Body := Body r; BodyErr := BodyErr r;
     XForwardedFor := XForwardedFor r; WriteErr := err |}.

(** The world with another snapshot in the whitelist holder. *)
Definition with_whitelist (m : WhitelistMVar Pk) (w : World Pk) : World Pk :=
  {| clock := clock w; counter := counter w; whitelist := m;
     storage := storage w |}.

(** [remoteAddr] of the handler: the X-Forwarded-For header, or the
    address of the connection when the header is empty. *)
Definition remote_addr (r : Request) : string :=
  if String.eqb (XForwardedFor r) EmptyString then RemoteAddr r
  else XForwardedFor r.

End Variants.

(** ** Start-up and whitelist refresh ([main]) *)

Record AwsConfig := mkAwsConfig { Region : string }.
Record KeyspacesConfig := mkKeyspacesConfig { Keyspace : string }.
Record LocalFileSystemConfig := mkLocalConfig { Path : string }.
Record PostgreSQLConfig := mkPostgreSQLConfig { Database : string }.

(** [AppConfig], the result of [LoadEnv]: the fields [main] reads. *)
Record AppConfig := mkAppConfig {
  NetworkName : string;
  CfgVerifySignatureDisabled : bool;
  DelegationWhitelistDisabled : bool;
  Aws : option AwsConfig;
  AwsKeyspaces : option KeyspacesConfig;
  LocalFileSystem : option LocalFileSystemConfig;
  PostgreSQL : option PostgreSQLConfig
}.

Section Main.

Context {Pk : Type} `{Countable Pk}.

(** Savers of the package that are outside the files at hand, and the
    path functions of the Go library. *)
Variable KeyspaceSave : ObjectsToSave -> Storage -> Storage.
Variable PostgreSQLSave : ObjectsToSave -> Storage -> Storage.
Variable filepath_Join : string -> string -> string.
Variable filepath_Dir : string -> string.

(** The closure [main] stores in [app.Save]. *)
Definition main_Save (appCfg : AppConfig) (awsctx : AwsContext)
    (objs : ObjectsToSave) (st : Storage) : Storage :=
  let st := match Aws appCfg with
            | Some _ => S3Save awsctx objs st
            | None => st
            end in
  let st := match AwsKeyspaces appCfg with
            | Some _ => KeyspaceSave objs st
            | None => st
            end in
  let st := match PostgreSQL appCfg with
            | Some _ => PostgreSQLSave objs st
            | None => st
            end in
  match LocalFileSystem appCfg with
  | Some l => LocalFileSystemSave filepath_Join filepath_Dir objs (Path l) st
  | None => st
  end.

(** What the calls of [main] to its collaborators return: an error
    ([Some], [inl]) or success. *)
Record Startup := mkStartup {
  LoadDefaultConfig_err : option string;
  InitializeKeyspaceSession_err : option string;
  NewPostgreSQL_err : option string;
  AWSBucketName : string;
  NetworkIdOf : Z;
  RequestsPerPkHourly : nat;
  sheets_NewService_err : option string;
  RetrieveWhitelist_init : string + Whitelist Pk
}.

(** How [main] goes on after start-up: [log.Fatal] ends the process
    before it listens; otherwise it serves with this [App], counter and,
    when the whitelist is enabled, snapshot holder (the refresh loop then
    runs beside the server). *)
Inductive MainResult :=
| Fatal (msg : string)
| Listening (app : App Pk) (ac : AttemptCounter Pk)
    (wl : option (WhitelistMVar Pk)).

(** The error of a set-up call that runs only for a configured backend. *)
Definition when_configured {A} (cfg : option A) (err : option string)
  : option string :=
  match cfg with
  | Some _ => err
  | None => None
  end.

(** A step of [main] that may end in [log.Fatal]. *)
Definition fatal_on (err : option string) (msg : string)
    (k : MainResult) : MainResult :=
  match err with
  | Some _ => Fatal msg
  | None => k
  end.

(** The whitelist part of [main], from [app.WhitelistDisabled = ...] to
    [http.ListenAndServe]. *)
Definition main_whitelist (appCfg : AppConfig) (env : Startup)
    (app : App Pk) (ac : AttemptCounter Pk) : MainResult :=
  let app1 :=
    {| WhitelistDisabled := DelegationWhitelistDisabled appCfg;
       VerifySignatureDisabled := VerifySignatureDisabled app;
       NetworkId := NetworkId app; Save := Save app; Now := Now app;
       IsReady := IsReady app |} in
  let ready (a : App Pk) : App Pk :=
    {| WhitelistDisabled := WhitelistDisabled a;
       VerifySignatureDisabled := VerifySignatureDisabled a;
       NetworkId := NetworkId a; Save := Save a; Now := Now a;
       IsReady := true |} in
  if WhitelistDisabled app1 then Listening (ready app1) ac None
  else
    fatal_on (sheets_NewService_err env) "Error creating Sheets service: %v"
      match RetrieveWhitelist_init env with
      | inl _ => Fatal "Failed to initialize whitelist: %v"
      | inr initWl =>
          let wlMvar := Replace initWl {| snapshot := ∅ |} in
          Listening (ready app1) ac (Some wlMvar)
      end.

(** [main]. *)
Definition main (appCfg : AppConfig) (env : Startup) : MainResult :=
  let app0 :=
    {| WhitelistDisabled := false;
       VerifySignatureDisabled := CfgVerifySignatureDisabled appCfg;
       NetworkId := NetworkIdOf env;
       Save := fun _ st => st;
       Now := fun w => clock w;
       IsReady := false |} in
  fatal_on (when_configured (Aws appCfg) (LoadDefaultConfig_err env))
    "Error loading AWS configuration: %v"
    (let awsctx :=
       match Aws appCfg with
       | Some _ => {| BucketName := AWSBucketName env;
                      Prefix := NetworkName appCfg |}
       | None => {| BucketName := EmptyString; Prefix := EmptyString |}
       end in
     fatal_on (when_configured (AwsKeyspaces appCfg)
                 (InitializeKeyspaceSession_err env))
       "Error initializing Keyspace session: %v"
       (fatal_on (when_configured (PostgreSQL appCfg) (NewPostgreSQL_err env))
          "Error initializing PostgreSQL: %v"
          (let app1 :=
             {| WhitelistDisabled := WhitelistDisabled app0;
                VerifySignatureDisabled := VerifySignatureDisabled app0;
                NetworkId := NetworkId app0;
                Save := main_Save appCfg awsctx;
                Now := Now app0; IsReady := IsReady app0 |} in
           if bool_decide (Aws appCfg = None)
              && bool_decide (LocalFileSystem appCfg = None)
              && bool_decide (AwsKeyspaces appCfg = None)
           then Fatal "No storage backend configured!"
           else
             main_whitelist appCfg env app1
               (NewAttemptCounter (RequestsPerPkHourly env))))).

(** One iteration of the refresh loop, after its sleep: [fetched] is what
    [RetrieveWhitelist] returned. *)
Definition refresh_iteration (wlMvar : WhitelistMVar Pk)
    (fetched : string + Whitelist Pk) : WhitelistMVar Pk :=
  match fetched with
  | inl _ => wlMvar
  | inr wl => Replace wl wlMvar
  end.

(** The refresh loop over its first iterations. *)
Definition refresh_loop (fetches : list (string + Whitelist Pk))
    (wlMvar : WhitelistMVar Pk) : WhitelistMVar Pk :=
  foldl refresh_iteration wlMvar fetches.

End Main.

(** ** A sample deployment

    Concrete collaborators on which the model runs: two submitter keys, a
    toy wire format (first byte: the submitter, second byte: the creation
    time in tens of seconds, rest: the block), a signature check that accepts
    everything, and a timestamp formatter that prints the seconds of the
    first minute of 2026-11-03. *)

Module Sample.

Definition Pk := bool.
Definition Sig := unit.

Definition key_string (pk : Pk) : string :=
  if pk then "B62qAlice" else "B62qBob".

Definition SECOND : Duration := 1000000000.

Definition Unmarshal (body : bytes) : option (submitRequest Pk Sig) :=
  match body with
  | who :: at_ :: block =>
      Some (mkReq (Byte.eqb who x41) tt
              (mkData (Z.of_N (Byte.to_N at_) * 10 * SECOND) block []))
  | _ => None
  end.

Definition two_digits (n : nat) : string :=
  String (ascii_of_nat (48 + (n / 10) mod 10))
    (String (ascii_of_nat (48 + n mod 10)) EmptyString).

Definition format_time (t : Time) : string :=
  "2026-11-03T00:00:" +:+ two_digits (Z.to_nat (t / SECOND)) +:+ "Z".

Definition X : Externals Pk Sig :=
  {| MAX_SUBMIT_PAYLOAD_SIZE := 50000000;
     TIME_DIFF_DELTA := -5 * 60 * SECOND;
     Pk_String := key_string;
     json_Unmarshal := Unmarshal;
     CheckRequiredFields := fun req =>
       negb (Nat.eqb (length (Block_data (Data req))) 0);
     MakeSignPayload := fun d => Some (Block_data d);
     blake2b_Sum256 := fun bs => bs;
     verifySig := fun _ _ _ _ => true;
     GetBlockDataHash := fun req =>
       String.string_of_list_byte (Block_data (Data req));
     MakeMetaToBeSaved := fun req addr => Some (GoStrings.to_bytes addr);
     formatRFC3339 := format_time;
     json_quote := fun s => GoStrings.dq +:+ s +:+ GoStrings.dq |}.

Definition filepath_Join (dir path : string) : string :=
  dir +:+ "/" +:+ path.

Definition filepath_Dir (path : string) : string := path.

Definition awsctx : AwsContext :=
  {| BucketName := "uptime"; Prefix := "mainnet" |}.

Definition empty_storage : Storage :=
  {| s3_objects := ∅; fs_files := ∅; faults := []; calls := [] |}.

Definition appCfg : AppConfig :=
  {| NetworkName := "mainnet"; CfgVerifySignatureDisabled := false;
     DelegationWhitelistDisabled := false;
     Aws := Some {| Region := "us-west-2" |}; AwsKeyspaces := None;
     LocalFileSystem := None; PostgreSQL := None |}.

Definition app : App Pk :=
  {| WhitelistDisabled := false; VerifySignatureDisabled := false;
     NetworkId := 1;
     Save := main_Save (fun _ st => st) (fun _ st => st)
               filepath_Join filepath_Dir appCfg awsctx;
     Now := fun w => clock w; IsReady := true |}.

(** Ten seconds past the epoch of the toy clock, quota of two per hour,
    only the first key authorized. *)
Definition world : World Pk :=
  {| clock := 10 * SECOND;
     counter := NewAttemptCounter 2;
     whitelist := {| snapshot := {[ true ]} |};
     storage := empty_storage |}.

Definition request (len : Z) (body : bytes) : Request :=
  {| Method := "POST"; URLPath := "/v1/submit"; RemoteAddr := "10.0.0.7:4242";
     ContentLength := len; Body := body; BodyErr := None;
     XForwardedFor := EmptyString; WriteErr := None |}.

(** A submission of the authorized key, created at second 10. *)
Definition alice_body : bytes := [x41; x01; x62; x6c; x6b]%byte.

(** A submission of the other key. *)
Definition bob_body : bytes := [x42; x01; x62; x6c; x6b]%byte.

(** A submission of the authorized key created at second 2000, far
    beyond the clock of [world] and its five minutes of tolerance. *)
Definition future_body : bytes := [x41; xc8; x62; x6c; x6b]%byte.

Definition startup (init : string + Whitelist Pk) : Startup :=
  {| LoadDefaultConfig_err := None; InitializeKeyspaceSession_err := None;
     NewPostgreSQL_err := None; AWSBucketName := "uptime"; NetworkIdOf := 1;
     RequestsPerPkHourly := 120; sheets_NewService_err := None;
     RetrieveWhitelist_init := init |}.

End Sample.

(** Stored objects for the sample deployment. *)

Module SampleStore.

Definition meta_path : string :=
  "submissions/2026-11-03/2026-11-03T00:00:10Z-B62qAlice.json".
Definition block_path : string := "blocks/3NKabc.dat".
Definition old_bytes : bytes := [x6f; x6c; x64].
Definition new_bytes : bytes := [x6e; x65; x77].

(** A data directory that already has the metadata file. *)
Definition with_meta_file : Storage :=
  {| s3_objects := ∅;
     fs_files := {[ Sample.filepath_Join "data" meta_path := old_bytes ]};
     faults := []; calls := [] |}.

(** A bucket that already has the block. *)
Definition with_block : Storage :=
  {| s3_objects :=
       {[ (BucketName Sample.awsctx, full_key Sample.awsctx block_path)
          := old_bytes ]};
     fs_files := ∅; faults := []; calls := [] |}.

(** An empty bucket whose next call fails with an error that is not a
    not-found error. *)
Definition access_denied : Storage :=
  {| s3_objects := ∅; fs_files := ∅;
     faults := [Some "api error AccessDenied: Access Denied"]; calls := [] |}.

End SampleStore.

(** Further collaborators and configurations for the sample deployment. *)

Module SampleMore.

(** The collaborators of [Sample.X] with a signature check that answers
    [verify] and a metadata encoder that works or not. *)
Definition X_with (verify meta_ok : bool) : Externals Sample.Pk Sample.Sig :=
  {| MAX_SUBMIT_PAYLOAD_SIZE := MAX_SUBMIT_PAYLOAD_SIZE Sample.X;
     TIME_DIFF_DELTA := TIME_DIFF_DELTA Sample.X;
     Pk_String := Pk_String Sample.X;
     json_Unmarshal := json_Unmarshal Sample.X;
     CheckRequiredFields := CheckRequiredFields Sample.X;
     MakeSignPayload := MakeSignPayload Sample.X;
     blake2b_Sum256 := blake2b_Sum256 Sample.X;
     verifySig := fun _ _ _ _ => verify;
     GetBlockDataHash := GetBlockDataHash Sample.X;
     MakeMetaToBeSaved := fun req addr =>
       if meta_ok then MakeMetaToBeSaved Sample.X req addr else None;
     formatRFC3339 := formatRFC3339 Sample.X;
     json_quote := json_quote Sample.X |}.

(** The sample application with the whitelist switched off. *)
Definition open_app : App Sample.Pk :=
  {| WhitelistDisabled := true;
     VerifySignatureDisabled := VerifySignatureDisabled Sample.app;
     NetworkId := NetworkId Sample.app; Save := Save Sample.app;
     Now := Now Sample.app; IsReady := IsReady Sample.app |}.

(** A configuration with the bucket and a data directory. *)
Definition two_backends : AppConfig :=
  {| NetworkName := "mainnet"; CfgVerifySignatureDisabled := false;
     DelegationWhitelistDisabled := false;
     Aws := Some {| Region := "us-west-2" |}; AwsKeyspaces := None;
     LocalFileSystem := Some {| Path := "data" |}; PostgreSQL := None |}.

(** A configuration with the database only. *)
Definition postgres_only : AppConfig :=
  {| NetworkName := "mainnet"; CfgVerifySignatureDisabled := false;
     DelegationWhitelistDisabled := true;
     Aws := None; AwsKeyspaces := None; LocalFileSystem := None;
     PostgreSQL := Some {| Database := "uptime" |} |}.

End SampleMore.

(** * Properties *)

(** ** Facts about strings *)

Section StringFacts.

Lemma string_app_cons (a : ascii) (s t : string) :
  String a s +:+ t = String a (s +:+ t).
Proof. reflexivity. Qed.

Lemma string_app_assoc (s t u : string) : (s +:+ t) +:+ u = s +:+ (t +:+ u).
Proof.
  induction s as [|a s IH]; [reflexivity|].
  rewrite !string_app_cons. by rewrite IH.
Qed.

Lemma string_app_length (s t : string) :
  String.length (s +:+ t) = (String.length s + String.length t)%nat.
Proof.
  induction s as [|a s IH]; [reflexivity|].
  rewrite string_app_cons. simpl. by rewrite IH.
Qed.

Lemma substring_0_length (n : nat) (s : string) :
  (n <= String.length s)%nat -> String.length (String.substring 0 n s) = n.
Proof.
  revert s. induction n as [|n IH]; intros [|a s] Hn; simpl in *;
    try reflexivity; try lia.
  rewrite IH; [reflexivity | lia].
Qed.

Lemma string_app_inj_len (s1 s2 t1 t2 : string) :
  String.length s1 = String.length s2 ->
  s1 +:+ t1 = s2 +:+ t2 -> s1 = s2 /\ t1 = t2.
Proof.
  revert s2. induction s1 as [|a s1 IH]; intros [|b s2] Hlen Heq;
    simpl in Hlen; try discriminate.
  - by split.
  - rewrite !string_app_cons in Heq. injection Heq as -> Heq.
    destruct (IH s2) as [-> ->]; [lia | done | done].
Qed.

Lemma string_app_inj_suffix (s1 s2 t : string) :
  s1 +:+ t = s2 +:+ t -> s1 = s2.
Proof.
  intros Heq. apply (string_app_inj_len s1 s2 t t); [|done].
  apply (f_equal String.length) in Heq.
  rewrite !string_app_length in Heq. lia.
Qed.

Lemma free_of_app_cons (c : ascii) (s t : string) :
  GoStrings.free_of c (s +:+ String c t) = false.
Proof.
  induction s as [|a s IH].
  - change (EmptyString +:+ String c t) with (String c t). simpl.
    by rewrite Ascii.eqb_refl.
  - rewrite string_app_cons. simpl. rewrite IH. apply andb_false_r.
Qed.

(** A separator that occurs in neither tail splits a string in one way
    only. *)
Lemma split_at_last (c : ascii) (a b x y : string) :
  GoStrings.free_of c x = true -> GoStrings.free_of c y = true ->
  a +:+ String c x = b +:+ String c y -> a = b /\ x = y.
Proof.
  intros Hx Hy. revert b.
  induction a as [|a1 a IH]; intros [|b1 b] Heq.
  - change (String c x = String c y) in Heq. by injection Heq as ->.
  - change (String c x = String b1 (b +:+ String c y)) in Heq.
    injection Heq as _ ->. by rewrite free_of_app_cons in Hx.
  - change (String a1 (a +:+ String c x) = String c y) in Heq.
    injection Heq as _ <-. by rewrite free_of_app_cons in Hy.
  - rewrite !string_app_cons in Heq. injection Heq as -> Heq.
    destruct (IH b Heq) as [-> ->]. done.
Qed.

End StringFacts.

(** ** Path builder *)

Section PathBuilderFacts.

Context {Pk : Type}.
Variable Pk_String : Pk -> string.

Lemma MakePathsImpl_Some (ts h : string) (pk : Pk) :
  (10 <= String.length ts)%nat ->
  MakePathsImpl Pk_String ts h pk =
    Some {| Meta := "submissions/" +:+ String.substring 0 10 ts +:+ "/"
                    +:+ ts +:+ "-" +:+ Pk_String pk +:+ ".json";
            Block := "blocks/" +:+ h +:+ ".dat" |}.
Proof.
  intros Hlen. unfold MakePathsImpl, GoStrings.slice_to.
  destruct (Nat.leb_spec 10 (String.length ts)) as [_|Hlt]; [|lia].
  reflexivity.
Qed.

Lemma Block_path_inj (h h' : string) :
  "blocks/" +:+ h +:+ ".dat" = "blocks/" +:+ h' +:+ ".dat" -> h = h'.
Proof.
  intros Heq. apply (inj (String.app "blocks/")) in Heq.
  by apply string_app_inj_suffix in Heq.
Qed.

Lemma Meta_path_inj (ts ts' : string) (pk pk' : Pk) :
  (forall a b, Pk_String a = Pk_String b -> a = b) ->
  (forall a, GoStrings.free_of "-" (Pk_String a) = true) ->
  (10 <= String.length ts)%nat -> (10 <= String.length ts')%nat ->
  "submissions/" +:+ String.substring 0 10 ts +:+ "/"
    +:+ ts +:+ "-" +:+ Pk_String pk +:+ ".json"
  = "submissions/" +:+ String.substring 0 10 ts' +:+ "/"
    +:+ ts' +:+ "-" +:+ Pk_String pk' +:+ ".json" ->
  ts = ts' /\ pk = pk'.
Proof.
  intros Hinj Hfree Hlen Hlen' Heq.
  apply (inj (String.app "submissions/")) in Heq.
  apply string_app_inj_len in Heq as [_ Heq];
    [|by rewrite !substring_0_length].
  apply (inj (String.app "/")) in Heq.
  rewrite <- !(string_app_assoc _ "-" (_ +:+ ".json")) in Heq.
  rewrite <- !(string_app_assoc _ _ ".json") in Heq.
  apply string_app_inj_suffix in Heq.
  rewrite !string_app_assoc in Heq.
  change ("-" +:+ ?s) with (String "-" s) in Heq.
  apply split_at_last in Heq as [-> Hpk]; [|apply Hfree..].
  split; [done | by apply Hinj].
Qed.

(** C5.  The path builder is a function of its three arguments: on a
    timestamp of at least ten bytes (every RFC 3339 timestamp has twenty
    or more) it returns the metadata path
    submissions/<first ten bytes of the timestamp>/<timestamp>-<key string>.json
    and the block path blocks/<hash>.dat; equal arguments give equal
    paths, different block hashes give different block paths, and
    different (day, submitter, timestamp) triples give different metadata
    paths.  The key type is declared outside the files at hand: its
    canonical string is taken to identify the key and to have no '-'
    (it is Base58Check text). *)
Theorem MakePathsImpl_deterministic_collision_free
    (ts h : string) (pk : Pk) (ts' h' : string) (pk' : Pk) :
  (forall a b, Pk_String a = Pk_String b -> a = b) ->
  (forall a, GoStrings.free_of "-" (Pk_String a) = true) ->
  (10 <= String.length ts)%nat -> (10 <= String.length ts')%nat ->
  exists p p',
    MakePathsImpl Pk_String ts h pk = Some p /\
    MakePathsImpl Pk_String ts' h' pk' = Some p' /\
    Meta p = "submissions/" +:+ String.substring 0 10 ts +:+ "/"
             +:+ ts +:+ "-" +:+ Pk_String pk +:+ ".json" /\
    Block p = "blocks/" +:+ h +:+ ".dat" /\
    ((ts, h, pk) = (ts', h', pk') -> p = p') /\
    (h <> h' -> Block p <> Block p') /\
    ((String.substring 0 10 ts, pk, ts) <> (String.substring 0 10 ts', pk', ts') ->
     Meta p <> Meta p').
Proof.
  intros Hinj Hfree Hlen Hlen'.
  eexists _, _. split; [by apply MakePathsImpl_Some|].
  split; [by apply MakePathsImpl_Some|]. simpl.
  split; [done|]. split; [done|]. split; [|split].
  - intros [= -> -> ->]. done.
  - intros Hne Heq. by apply Hne, Block_path_inj.
  - intros Hne Heq. apply Hne.
    apply Meta_path_inj in Heq as [-> ->]; done.
Qed.

End PathBuilderFacts.

(** ** Rate limiter *)

Section LimiterFacts.

Context {Pk : Type} `{Countable Pk}.
Implicit Types (ac : AttemptCounter Pk) (k pk : Pk) (l ts : list Time).

Lemma prune_all_live (win : Duration) (now : Time) l :
  Forall (fun t => now - t <= win) l -> prune win now l = l.
Proof.
  unfold prune. induction 1 as [|t l Ht _ IH]; [done|].
  rewrite filter_cons_True; [|done]. by rewrite IH.
Qed.

Lemma prune_all_stale (win : Duration) (now : Time) l :
  Forall (fun t => t + win < now) l -> prune win now l = [].
Proof.
  unfold prune. induction 1 as [|t l Ht _ IH]; [done|].
  rewrite filter_cons_False; [done | lia].
Qed.

Lemma RecordAttempt_allowed ac (now : Time) pk :
  (length (prune (window ac) now (attempts ac !!! pk)) < maxAttempts ac)%nat ->
  RecordAttempt ac now pk =
    (true,
     {| window := window ac; maxAttempts := maxAttempts ac;
        attempts :=
          <[pk := prune (window ac) now (attempts ac !!! pk) ++ [now]]>
            (attempts ac) |}).
Proof.
  intros Hlt. unfold RecordAttempt.
  destruct (Nat.leb_spec (maxAttempts ac)
              (length (prune (window ac) now (attempts ac !!! pk))));
    [lia | done].
Qed.

Lemma RecordAttempt_rejected ac (now : Time) pk :
  (maxAttempts ac <= length (prune (window ac) now (attempts ac !!! pk)))%nat ->
  RecordAttempt ac now pk =
    (false,
     {| window := window ac; maxAttempts := maxAttempts ac;
        attempts :=
          <[pk := prune (window ac) now (attempts ac !!! pk)]> (attempts ac) |}).
Proof.
  intros Hle. unfold RecordAttempt.
  destruct (Nat.leb_spec (maxAttempts ac)
              (length (prune (window ac) now (attempts ac !!! pk))));
    [done | lia].
Qed.

(** A call changes neither the configuration nor the record of another
    key. *)
Lemma RecordAttempt_config ac (now : Time) pk :
  window (RecordAttempt ac now pk).2 = window ac /\
  maxAttempts (RecordAttempt ac now pk).2 = maxAttempts ac.
Proof. unfold RecordAttempt. by case_match. Qed.

Lemma RecordAttempt_other ac (now : Time) pk k :
  pk <> k ->
  attempts (RecordAttempt ac now pk).2 !!! k = attempts ac !!! k.
Proof.
  intros Hne. unfold RecordAttempt.
  case_match; simpl; by rewrite lookup_total_insert_ne.
Qed.

Lemma RecordAttempt_agree k ac ac' (now : Time) :
  agree_on k ac ac' ->
  (RecordAttempt ac now k).1 = (RecordAttempt ac' now k).1 /\
  agree_on k (RecordAttempt ac now k).2 (RecordAttempt ac' now k).2.
Proof.
  intros (Hw & Hm & Hl). unfold RecordAttempt, agree_on.
  rewrite Hw, Hm, Hl.
  case_match; simpl; rewrite !lookup_total_insert_eq; done.
Qed.

Lemma outcomes_for_agree k (cs : list (Time * Pk)) ac ac' :
  agree_on k ac ac' ->
  outcomes_for k ac cs =
    (RecordAttempts ac' (filter (fun c => c.2 = k) cs)).1.
Proof.
  revert ac ac'. induction cs as [|[now pk] cs IH]; intros ac ac' Hag; [done|].
  simpl. destruct (RecordAttempt ac now pk) as [ok ac1] eqn:Hstep.
  destruct (decide (pk = k)) as [->|Hne].
  - rewrite filter_cons_True by done. simpl.
    destruct (RecordAttempt_agree k ac ac' now Hag) as [Hok Hag1].
    rewrite Hstep in Hok, Hag1. simpl in Hok, Hag1.
    destruct (RecordAttempt ac' now k) as [ok' ac1'] eqn:Hstep'.
    simpl in Hok, Hag1. subst ok'.
    specialize (IH ac1 ac1' Hag1).
    destruct (RecordAttempts ac1' _) as [oks ac2]. simpl in *. by rewrite IH.
  - rewrite filter_cons_False by done.
    apply IH. destruct Hag as (Hw & Hm & Hl).
    pose proof (RecordAttempt_config ac now pk) as [Hw1 Hm1].
    pose proof (RecordAttempt_other ac now pk k Hne) as Hl1.
    rewrite Hstep in Hw1, Hm1, Hl1. simpl in *.
    unfold agree_on. by rewrite Hw1, Hm1, Hl1.
Qed.

Lemma RecordAttempts_app ac (cs1 cs2 : list (Time * Pk)) :
  RecordAttempts ac (cs1 ++ cs2) =
    ((RecordAttempts ac cs1).1
       ++ (RecordAttempts (RecordAttempts ac cs1).2 cs2).1,
     (RecordAttempts (RecordAttempts ac cs1).2 cs2).2).
Proof.
  revert ac. induction cs1 as [|[now pk] cs1 IH]; intros ac; simpl.
  - by destruct (RecordAttempts ac cs2).
  - destruct (RecordAttempt ac now pk) as [ok ac1].
    rewrite IH. destruct (RecordAttempts ac1 cs1) as [oks1 ac2]. simpl.
    by destruct (RecordAttempts ac2 cs2).
Qed.

(** An allowed call appends its timestamp to what is left of the record
    of its key. *)
Lemma RecordAttempt_true_recorded ac (now : Time) pk :
  (RecordAttempt ac now pk).1 = true ->
  attempts (RecordAttempt ac now pk).2 !!! pk =
    prune (window ac) now (attempts ac !!! pk) ++ [now].
Proof.
  unfold RecordAttempt. case_match; simpl; [done|].
  intros _. by rewrite lookup_total_insert_eq.
Qed.

(** A rejected call leaves what is left of the record as it is. *)
Lemma RecordAttempt_false_recorded ac (now : Time) pk :
  (RecordAttempt ac now pk).1 = false ->
  attempts (RecordAttempt ac now pk).2 !!! pk =
    prune (window ac) now (attempts ac !!! pk).
Proof.
  unfold RecordAttempt. case_match; simpl; [|done].
  intros _. by rewrite lookup_total_insert_eq.
Qed.

(** While the live part [l] of the record of [k] is short of the quota,
    calls for [k] inside one window are all allowed and are appended to
    it. *)
Lemma RecordAttempts_fill k (a : Time) ts ac l :
  (forall now, a <= now <= a + window ac ->
     prune (window ac) now (attempts ac !!! k) = l) ->
  Forall (fun t => a <= t <= a + window ac) l ->
  Forall (fun t => a <= t <= a + window ac) ts ->
  (length l + length ts <= maxAttempts ac)%nat ->
  exists ac',
    RecordAttempts ac ((fun t => (t, k)) <$> ts) =
      (replicate (length ts) true, ac') /\
    (forall now, a <= now <= a + window ac ->
       prune (window ac) now (attempts ac' !!! k) = l ++ ts) /\
    window ac' = window ac /\ maxAttempts ac' = maxAttempts ac.
Proof.
  revert ac l. induction ts as [|t ts IH]; intros ac l Hl Hin Hts Hlen.
  - exists ac. simpl. by rewrite app_nil_r.
  - apply Forall_cons in Hts as [Ht Hts]. simpl in Hlen.
    pose proof (Hl t Ht) as Hlive.
    simpl. rewrite RecordAttempt_allowed by (rewrite Hlive; lia).
    rewrite Hlive.
    set (ac1 := {| window := window ac; maxAttempts := maxAttempts ac;
                   attempts := <[k := l ++ [t]]> (attempts ac) |}).
    destruct (IH ac1 (l ++ [t])) as (ac' & Hrun & Hrec & Hw & Hm).
    + intros now Hnow. subst ac1. simpl in *. rewrite lookup_total_insert_eq.
      apply prune_all_live. apply Forall_app. split.
      * eapply Forall_impl; [exact Hin|]. simpl. intros; lia.
      * apply Forall_singleton. lia.
    + apply Forall_app. split; [done|]. by apply Forall_singleton.
    + done.
    + rewrite length_app. simpl. lia.
    + exists ac'. unfold fmap in Hrun. rewrite Hrun.
      subst ac1. simpl in Hrec, Hw, Hm.
      split; [done|]. split; [|done].
      intros now Hnow. rewrite (Hrec now Hnow). by rewrite <- app_assoc.
Qed.

(** The quota over one window: from a record of [k] with nothing live,
    [max + 1] calls inside one window give [max] times true and then
    false, the record then holds the first [max] timestamps, and a call
    after the window has passed over all of them is allowed again. *)
Lemma RecordAttempts_quota ac k (a later : Time) ts :
  (0 < maxAttempts ac)%nat ->
  length ts = S (maxAttempts ac) ->
  Forall (fun t => a <= t <= a + window ac) ts ->
  Forall (fun t0 => t0 + window ac < a) (attempts ac !!! k) ->
  Forall (fun t => t + window ac < later) ts ->
  (RecordAttempts ac ((fun t => (t, k)) <$> ts)).1 =
    replicate (maxAttempts ac) true ++ [false] /\
  attempts (RecordAttempts ac ((fun t => (t, k)) <$> ts)).2 !!! k =
    take (maxAttempts ac) ts /\
  (RecordAttempt (RecordAttempts ac ((fun t => (t, k)) <$> ts)).2 later k).1 =
    true.
Proof.
  intros Hpos Hlen Hts Hstale Hlater.
  set (m := maxAttempts ac) in *.
  assert (ts = take m ts ++ drop m ts) as Hsplit by (by rewrite take_drop).
  destruct (drop m ts) as [|tl [|? ?]] eqn:Hdrop.
  1, 3: apply (f_equal length) in Hdrop; rewrite length_drop in Hdrop;
        simpl in Hdrop; lia.
  assert (length (take m ts) = m) as Htake by (rewrite length_take; lia).
  remember (take m ts) as ok eqn:Hok. clear Hdrop Hlen. subst ts.
  apply Forall_app in Hts as [Hin Hlast]. rewrite Forall_singleton in Hlast.
  apply Forall_app in Hlater as [Hlater _].
  destruct (RecordAttempts_fill k a ok ac [])
    as (ac1 & Hrun & Hrec & Hw & Hm); [| done | done | simpl; lia |].
  { intros now Hnow. apply prune_all_stale.
    eapply Forall_impl; [exact Hstale|]. simpl. intros; lia. }
  rewrite Htake in Hrun. simpl in Hrec.
  assert (RecordAttempt ac1 tl k =
          (false, {| window := window ac1; maxAttempts := maxAttempts ac1;
                     attempts := <[k := ok]> (attempts ac1) |}))
    as Hrej.
  { rewrite RecordAttempt_rejected; rewrite Hw, (Hrec tl Hlast); [done|].
    rewrite Hm. fold m. lia. }
  rewrite fmap_app, RecordAttempts_app.
  rewrite Hrun. simpl. rewrite Hrej. simpl.
  rewrite lookup_total_insert_eq.
  split; [done|]. split; [done|].
  rewrite RecordAttempt_allowed; [done|].
  simpl. rewrite lookup_total_insert_eq, Hw.
  rewrite prune_all_stale; [simpl; rewrite Hm; fold m; lia | done].
Qed.

End LimiterFacts.

(** ** Positions in a sequence of events *)

Section PositionFacts.

Context {A : Type} (p : A -> bool).

Lemma Forall_after_first (Q : A -> Prop) (pre post : list A) (y : A) :
  p y = true ->
  Forall Q (after_first p (pre ++ y :: post)) -> Forall Q post.
Proof.
  intros Hy. induction pre as [|x pre IH]; simpl.
  - by rewrite Hy.
  - destruct (p x); [|done].
    intros Hall. apply Forall_app in Hall as [_ Hall].
    by apply Forall_cons in Hall as [_ Hall].
Qed.

Lemma elem_of_before_first (x y : A) (pre post : list A) :
  p y = true ->
  x ∈ before_first p (pre ++ y :: post) -> x ∈ pre.
Proof.
  intros Hy. induction pre as [|z pre IH]; simpl.
  - by rewrite Hy.
  - destruct (p z); [by intros ?%elem_of_nil|].
    intros [->|Hin]%elem_of_cons; [left | right; auto].
Qed.

End PositionFacts.

(** ** The submit handler *)

Section HandlerFacts.

Context {Pk : Type} `{Countable Pk} {Sig : Type}.
Variable X : Externals Pk Sig.
Implicit Types (app : App Pk) (r : Request) (w : World Pk).

(** Projections of a state built by the handler's operations. *)
Ltac hsimpl :=
  cbn [resp_status resp_body trace world fst snd
       record_attempt save WriteHeader Write log emit
       set_world start clock counter whitelist storage app].

(** One goal per path through the handler, with the condition of every
    branch taken as a hypothesis. *)
Ltac handler_cases :=
  unfold ServeHTTP, ServeHTTP_decoded, ServeHTTP_checked, ServeHTTP_persist,
    writeErrorResponse;
  hsimpl;
  repeat (case_match; hsimpl).

(** The branch conditions as propositions. *)
Ltac conditions :=
  repeat match goal with
    | Hc : negb _ = true |- _ => apply negb_true_iff in Hc
    | Hc : negb _ = false |- _ => apply negb_false_iff in Hc
    | Hc : (_ =? _) = true |- _ => apply Z.eqb_eq in Hc
    | Hc : (_ =? _) = false |- _ => apply Z.eqb_neq in Hc
    | Hc : (_ >? _) = true |- _ => rewrite Z.gtb_ltb in Hc; apply Z.ltb_lt in Hc
    | Hc : (_ >? _) = false |- _ => rewrite Z.gtb_ltb in Hc; apply Z.ltb_ge in Hc
    | Hc : bool_decide _ = true |- _ => apply bool_decide_eq_true in Hc
    | Hc : bool_decide _ = false |- _ => apply bool_decide_eq_false in Hc
    end.

(** Membership in an explicit sequence: one goal per position that can
    match. *)
Ltac elem_cases Hin :=
  repeat (apply elem_of_cons in Hin as [Hin|Hin]; [try discriminate Hin|]);
  try (apply elem_of_nil in Hin; destruct Hin).

Ltac elem_here :=
  repeat first [apply list_elem_of_here | apply list_elem_of_further].

(** C9.  The payload-too-large answer is given exactly when a length was
    declared and it is strictly greater than the configured maximum: a
    request whose declared length equals the maximum passes the size gate
    and the handler goes on to read its body. *)
Theorem size_gate_strict app r w :
  let h := ServeHTTP X app r w in
  (resp_status h = Some 413 <->
     ContentLength r <> -1 /\ MAX_SUBMIT_PAYLOAD_SIZE X < ContentLength r) /\
  (ContentLength r = MAX_SUBMIT_PAYLOAD_SIZE X -> ContentLength r <> -1 ->
     resp_status h <> Some 413 /\ EReadBody ∈ trace h).
Proof.
  intros h. subst h. handler_cases; conditions.
  all: split;
    [ split; [intros [=]; lia | intros [? ?]; first [lia | done]]
    | intros Hmax Hlen; first [lia | split; [intros [=] | elem_here]] ].
Qed.

(** C6 (as amended).  A request without a declared length is answered
    411 and a request that declares more than the maximum is answered
    413, both with an empty body; every other rejection (400, 401, 429,
    500) carries the JSON error object with its message. *)
Theorem rejection_bodies app r w :
  let h := ServeHTTP X app r w in
  (ContentLength r = -1 -> resp_status h = Some 411 /\ resp_body h = []) /\
  (ContentLength r <> -1 -> MAX_SUBMIT_PAYLOAD_SIZE X < ContentLength r ->
     resp_status h = Some 413 /\ resp_body h = []) /\
  (forall c, resp_status h = Some c -> c <> 200 ->
     (c = 411 \/ c = 413) /\ resp_body h = [] \/
     (c = 400 \/ c = 401 \/ c = 429 \/ c = 500) /\
     exists msg, resp_body h = marshal_errorResponse X msg).
Proof.
  intros h. subst h. handler_cases; conditions.
  all: split; [intros ?; first [lia | done] |].
  all: split; [intros ? ?; first [lia | done] |].
  all: intros c [= <-] Hc.
  all: first [ done
             | left; split; [lia | reflexivity]
             | right; split; [lia | eexists; reflexivity] ].
Qed.

(** C2.  When the handler reaches the freshness check (it reads the
    clock), the decoded request is answered 400 exactly when its creation
    time is later than the current time plus the tolerance; a request so
    rejected has had no signature work done and no attempt recorded. *)
Theorem freshness_check app r w (t : Time) :
  let h := ServeHTTP X app r w in
  ENow t ∈ trace h ->
  exists req,
    json_Unmarshal X (read_body r).1 = Some req /\ t = Now app w /\
    (resp_status h = Some 400 <->
       CreatedAt (Data req) > t + clock_skew_tolerance X) /\
    (resp_status h = Some 400 ->
       (EMakeSignPayload ∉ trace h) /\ (forall ok, EVerifySig ok ∉ trace h) /\
       (forall pk ok, ERecordAttempt pk ok ∉ trace h) /\
       counter (world h) = counter w).
Proof.
  intros h. subst h. unfold clock_skew_tolerance.
  handler_cases; conditions; intros Hin; elem_cases Hin.
  all: injection Hin as ->.
  all: eexists; split; [reflexivity|].
  all: split; [reflexivity|].
  all: split; [split; [intros [=]; lia | intros ?; first [done | lia]] |].
  all: intros [=].
  all: repeat split; try (intros; intros Hin; elem_cases Hin).
Qed.

(** C1.  After the status of a rejection is written only the error
    response follows (log lines and the write of the body): no later
    stage runs.  A call to persistence comes after an allowed call of the
    rate limiter, which has added the attempt to the record of the
    submitter; without a call to persistence the storage is untouched.  A
    request turned down by the whitelist check is answered 401 with the
    counter and the storage left as they were, no attempt recorded and no
    call to persistence. *)
Theorem pipeline_order app r w :
  let h := ServeHTTP X app r w in
  (forall pre c post, trace h = pre ++ EWriteHeader c :: post ->
     Forall (fun e => is_response_event e = true) post) /\
  (forall pre objs post, trace h = pre ++ ESave objs :: post ->
     exists pk,
       ERecordAttempt pk true ∈ pre /\
       (RecordAttempt (counter w) (clock w) pk).1 = true /\
       counter (world h) = (RecordAttempt (counter w) (clock w) pk).2 /\
       attempts (counter (world h)) !!! pk =
         prune (window (counter w)) (clock w) (attempts (counter w) !!! pk)
           ++ [clock w]) /\
  ((forall objs, ESave objs ∉ trace h) -> storage (world h) = storage w) /\
  (forall req,
     EReadWhitelist ∈ trace h ->
     json_Unmarshal X (read_body r).1 = Some req ->
     Submitter req ∉ ReadWhitelist (whitelist w) ->
     resp_status h = Some 401 /\
     counter (world h) = counter w /\ storage (world h) = storage w /\
     (forall pk ok, ERecordAttempt pk ok ∉ trace h) /\
     (forall objs, ESave objs ∉ trace h)).
Proof.
  intros h. subst h. handler_cases; conditions.
  all: repeat match goal with
         | Hc : (RecordAttempt _ _ _).1 = _ |- _ => rewrite Hc
         end.
  all: split;
    [ intros pre c post Heq;
      apply (Forall_after_first is_WriteHeader _ pre post (EWriteHeader c));
      [reflexivity|]; rewrite <- Heq; simpl; repeat constructor |].
  all: split;
    [ intros pre objs post Heq;
      first
        [ exfalso; assert (ESave objs ∈ pre ++ ESave objs :: post) as Hin
            by (apply elem_of_app; right; left);
          rewrite <- Heq in Hin; elem_cases Hin; fail
        | eexists; split;
          [ apply (elem_of_before_first is_Save _ (ESave objs) pre post);
            [reflexivity|]; rewrite <- Heq; simpl; elem_here
          | split; [assumption|]; split; [reflexivity|];
            by apply RecordAttempt_true_recorded ] ] |].
  all: split;
    [ intros Hno;
      first [ reflexivity | exfalso; eapply Hno; elem_here ] |].
  all: intros req Hin Hreq Hnot; elem_cases Hin.
  all: injection Hreq as <-.
  all: first [ done | repeat split; intros; intros Hin'; elem_cases Hin' ].
Qed.

(** C7.  From a record with nothing live for a key, [max + 1] calls of
    [RecordAttempt] for the key inside one window return true [max] times
    and then false, and the record then holds exactly the first [max]
    timestamps (the rejected call added none); a call after the window has
    passed over all of them returns true again.  In any run of calls the
    outcomes for a key are those of the run with the calls for the other
    keys removed.  In the handler the recorded outcome is the one
    [RecordAttempt] returns on the shared counter, and a false outcome is
    answered 429 without a call to persistence.  The quota is taken to be
    positive. *)
Theorem rate_limit_quota (ac : AttemptCounter Pk) (k : Pk) (a later : Time)
    (ts : list Time) (cs : list (Time * Pk)) app r w :
  (0 < maxAttempts ac)%nat ->
  length ts = S (maxAttempts ac) ->
  Forall (fun t => a <= t <= a + window ac) ts ->
  Forall (fun t0 => t0 + window ac < a) (attempts ac !!! k) ->
  Forall (fun t => t + window ac < later) ts ->
  let run := RecordAttempts ac ((fun t => (t, k)) <$> ts) in
  let h := ServeHTTP X app r w in
  run.1 = replicate (maxAttempts ac) true ++ [false] /\
  attempts run.2 !!! k = take (maxAttempts ac) ts /\
  (RecordAttempt run.2 later k).1 = true /\
  outcomes_for k ac cs =
    (RecordAttempts ac (filter (fun c => c.2 = k) cs)).1 /\
  (forall pk ok, ERecordAttempt pk ok ∈ trace h ->
     ok = (RecordAttempt (counter w) (clock w) pk).1 /\
     (ok = false ->
        resp_status h = Some 429 /\ forall objs, ESave objs ∉ trace h)) /\
  (resp_status h = Some 429 -> exists pk, ERecordAttempt pk false ∈ trace h).
Proof.
  intros Hpos Hlen Hts Hstale Hlater run h.
  destruct (RecordAttempts_quota ac k a later ts) as (Hrun & Hrec & Hagain);
    [done..|].
  split; [done|]. split; [done|]. split; [done|].
  split; [by apply outcomes_for_agree|].
  clear. subst h. handler_cases; conditions.
  all: split.
  all: try (intros [=];
            match goal with
            | Hc : (RecordAttempt _ _ ?pk).1 = false |- _ =>
                exists pk; rewrite Hc; elem_here
            end).
  all: intros pk ok Hin; elem_cases Hin.
  all: injection Hin as -> ->.
  all: split; [reflexivity|].
  all: intros Hok.
  all: first [ congruence
             | split; [reflexivity | intros; intros Hin'; elem_cases Hin'] ].
Qed.

End HandlerFacts.

(** ** Storage destinations *)

Section CallFacts.

Implicit Types (st : Storage).

Lemma extends_refl st : extends st st.
Proof. exists []. by rewrite app_nil_r. Qed.

Lemma extends_trans st1 st2 st3 :
  extends st1 st2 -> extends st2 st3 -> extends st1 st3.
Proof.
  intros [cs1 H1] [cs2 H2]. exists (cs1 ++ cs2).
  by rewrite H2, H1, app_assoc.
Qed.

Lemma new_calls_eq st st' cs :
  calls st' = calls st ++ cs -> new_calls st st' = cs.
Proof. intros Heq. unfold new_calls. by rewrite Heq, drop_app_length. Qed.

Lemma new_calls_trans st1 st2 st3 :
  extends st1 st2 -> extends st2 st3 ->
  new_calls st1 st3 = new_calls st1 st2 ++ new_calls st2 st3.
Proof.
  intros [cs1 H1] [cs2 H2].
  rewrite (new_calls_eq st1 st2 cs1), (new_calls_eq st2 st3 cs2) by done.
  apply new_calls_eq. by rewrite H2, H1, app_assoc.
Qed.

(** A loop over the entries whose body only adds calls. *)
Context {A : Type} (body : Storage -> A -> Storage).
Hypothesis body_extends : forall st obj, extends st (body st obj).

Lemma loop_extends (entries : list A) st : extends st (foldl body st entries).
Proof.
  revert st. induction entries as [|obj rest IH]; intros st; simpl.
  - apply extends_refl.
  - eapply extends_trans; [apply body_extends | apply IH].
Qed.

Lemma loop_new_calls_cons (obj : A) (rest : list A) st :
  new_calls st (foldl body st (obj :: rest)) =
    new_calls st (body st obj)
      ++ new_calls (body st obj) (foldl body (body st obj) rest).
Proof. simpl. apply new_calls_trans; [done | apply loop_extends]. Qed.

(** Every call of the loop is a call of one of its iterations, whose
    calls are all calls of the loop. *)
Lemma loop_call (entries : list A) st (c : StoreCall) :
  c ∈ new_calls st (foldl body st entries) ->
  exists obj st0,
    obj ∈ entries /\ c ∈ new_calls st0 (body st0 obj) /\
    forall d, d ∈ new_calls st0 (body st0 obj) ->
              d ∈ new_calls st (foldl body st entries).
Proof.
  revert st. induction entries as [|obj rest IH]; intros st.
  - simpl. unfold new_calls. rewrite drop_all. by intros ?%elem_of_nil.
  - rewrite loop_new_calls_cons. intros [Hin|Hin]%elem_of_app.
    + exists obj, st. split; [left|]. split; [done|].
      intros d Hd. apply elem_of_app. by left.
    + destruct (IH _ Hin) as (obj' & st0 & Hobj & Hc & Hsub).
      exists obj', st0. split; [by right|]. split; [done|].
      intros d Hd. apply elem_of_app. right. by apply Hsub.
Qed.

(** What every run of the iteration for [obj] calls, the loop calls. *)
Lemma loop_calls_of (entries : list A) st (obj : A) (R : StoreCall -> Prop) :
  obj ∈ entries ->
  (forall st0, exists c, c ∈ new_calls st0 (body st0 obj) /\ R c) ->
  exists c, c ∈ new_calls st (foldl body st entries) /\ R c.
Proof.
  intros Hobj Hbody. revert st.
  induction entries as [|obj' rest IH]; intros st.
  - by apply elem_of_nil in Hobj.
  - rewrite loop_new_calls_cons.
    apply elem_of_cons in Hobj as [<-|Hobj].
    + destruct (Hbody st) as (c & Hc & HR). exists c.
      split; [apply elem_of_app; by left | done].
    + destruct (IH Hobj (body st obj')) as (c & Hc & HR). exists c.
      split; [apply elem_of_app; by right | done].
Qed.

(** A call of the loop, with the calls before it: it is a call of one
    iteration, and what that iteration called before it came before it
    in the loop. *)
Lemma loop_call_before (entries : list A) st (c : StoreCall)
    (pre post : list StoreCall) :
  new_calls st (foldl body st entries) = pre ++ c :: post ->
  exists obj st0 pre0 post0,
    obj ∈ entries /\
    new_calls st0 (body st0 obj) = pre0 ++ c :: post0 /\
    forall d, d ∈ pre0 -> d ∈ pre.
Proof.
  revert st pre. induction entries as [|obj rest IH]; intros st pre.
  - simpl. unfold new_calls. rewrite drop_all. by intros ?%app_cons_not_nil.
  - rewrite loop_new_calls_cons. intros Heq.
    apply app_eq_inv in Heq as [(k & Hbody & Hk)|(k & Hpre & Hk)].
    + destruct k as [|c' k].
      * simpl in Hk. symmetry in Hk.
        destruct (IH (body st obj) [] Hk)
          as (obj' & st0 & pre0 & post0 & Hobj & Hc & Hbefore).
        exists obj', st0, pre0, post0. split; [by right|]. split; [done|].
        intros d Hd. by apply Hbefore, elem_of_nil in Hd.
      * simpl in Hk. injection Hk as <- Hk.
        exists obj, st, pre, k. split; [left|]. split; [done|]. done.
    + destruct (IH (body st obj) k Hk)
        as (obj' & st0 & pre0 & post0 & Hobj & Hc & Hbefore).
      exists obj', st0, pre0, post0. split; [by right|]. split; [done|].
      intros d Hd. rewrite Hpre. apply elem_of_app. right. by apply Hbefore.
Qed.

(** An invariant of the iterations is an invariant of the loop, and what
    no iteration calls under it the loop does not call. *)
Lemma loop_invariant (Inv : Storage -> Prop) (R : StoreCall -> Prop)
    (entries : list A) st :
  (forall st0 obj, Inv st0 ->
     Inv (body st0 obj) /\ Forall R (new_calls st0 (body st0 obj))) ->
  Inv st ->
  Inv (foldl body st entries) /\
  Forall R (new_calls st (foldl body st entries)).
Proof.
  intros Hstep. revert st.
  induction entries as [|obj rest IH]; intros st Hinv.
  - simpl. split; [done|]. unfold new_calls. by rewrite drop_all.
  - rewrite loop_new_calls_cons.
    destruct (Hstep st obj Hinv) as [Hinv1 Hcalls].
    destruct (IH _ Hinv1) as [Hinv2 Hrest].
    split; [done | by apply Forall_app].
Qed.

End CallFacts.

Section S3Facts.

Implicit Types (st : Storage) (ctx : AwsContext) (obj : string * bytes).

Lemma full_key_inj ctx (p q : string) :
  full_key ctx p = full_key ctx q -> p = q.
Proof.
  unfold full_key. intros Heq.
  apply (inj (String.app (Prefix ctx))) in Heq.
  by apply (inj (String.app "/")) in Heq.
Qed.

Ltac s3_cases :=
  unfold S3Save_body, HeadObject, PutObject, store_log, record_call, pop_fault;
  repeat case_match; simplify_eq/=.

Lemma S3Save_body_extends ctx st obj : extends st (S3Save_body ctx st obj).
Proof. unfold extends. s3_cases; rewrite <- ?app_assoc; eauto. Qed.

(** The calls of one iteration follow [entry_calls]. *)
Lemma S3Save_body_calls ctx st (path : string) (bs : bytes) :
  entry_calls ctx path bs (new_calls st (S3Save_body ctx st (path, bs))).
Proof.
  unfold new_calls. s3_cases; rewrite <- ?app_assoc, drop_app_length; simpl.
  all: first
    [ by apply entry_skipped
    | apply entry_unprobed; [done | repeat constructor]
    | apply (entry_probe_failed ctx path bs _ [_; _]);
      [done | repeat constructor..]
    | apply (entry_probe_failed ctx path bs _ [_]);
      [done | repeat constructor..] ].
Qed.

Lemma pop_fault_free st :
  fault_free st ->
  exists st',
    pop_fault st = (None, st') /\ fault_free st' /\
    s3_objects st' = s3_objects st /\ fs_files st' = fs_files st /\
    calls st' = calls st.
Proof.
  unfold fault_free, pop_fault. destruct st as [objs files fs cs]. simpl.
  destruct fs as [|f rest].
  - intros _. eexists. split; [done|]. simpl. auto.
  - intros [-> Hrest]%Forall_cons. eexists. split; [done|]. simpl. auto.
Qed.

Lemma fault_free_record_call (c : StoreCall) st :
  fault_free st -> fault_free (record_call c st).
Proof. done. Qed.

Lemma fault_free_store_log (lvl : Level) (fmt : string) st :
  fault_free st -> fault_free (store_log lvl fmt st).
Proof. done. Qed.

(** Without injected failures an iteration skips a block that is there
    and stores every other object. *)
Lemma S3Save_body_fault_free ctx st (path : string) (bs : bytes) :
  fault_free st ->
  let st' := S3Save_body ctx st (path, bs) in
  let loc := (BucketName ctx, full_key ctx path) in
  fault_free st' /\
  (GoStrings.HasPrefix path "blocks/" = true /\
   is_Some (s3_objects st !! loc) /\ s3_objects st' = s3_objects st /\
   new_calls st st' = [HeadObjectCall loc.1 loc.2 None]
   \/
   (GoStrings.HasPrefix path "blocks/" = false \/ s3_objects st !! loc = None) /\
   s3_objects st' = <[loc := bs]> (s3_objects st)).
Proof.
  intros Hff. simpl. unfold S3Save_body.
  destruct (GoStrings.HasPrefix path "blocks/") eqn:Hp.
  - unfold HeadObject.
    destruct (pop_fault_free st Hff) as (st1 & -> & Hff1 & Hobj1 & _ & Hcs1).
    rewrite Hobj1.
    destruct (s3_objects st !! (BucketName ctx, full_key ctx path))
      as [old|] eqn:Hold.
    + split; [exact Hff1|]. left. simpl.
      split; [done|]. split; [by eauto|]. split; [done|].
      apply new_calls_eq. simpl. by rewrite Hcs1.
    + assert (fault_free
                (store_log Info Msg.s3_saving
                   (if negb (GoStrings.Contains NotFoundError "NotFound")
                    then store_log Warn Msg.s3_probe_failed
                           (record_call
                              (HeadObjectCall (BucketName ctx)
                                 (full_key ctx path) (Some NotFoundError)) st1)
                    else record_call
                           (HeadObjectCall (BucketName ctx)
                              (full_key ctx path) (Some NotFoundError)) st1)))
        as Hff2
        by (case_match;
            repeat first [apply fault_free_store_log
                         | apply fault_free_record_call]; done).
      unfold PutObject.
      destruct (pop_fault_free _ Hff2) as (st2 & -> & Hff3 & Hobj2 & _ & _).
      split; [exact Hff3|]. right. split; [by right|].
      simpl. rewrite Hobj2. case_match; simpl; by rewrite Hobj1.
  - assert (fault_free (store_log Info Msg.s3_saving st)) as Hff2
      by (by apply fault_free_store_log).
    unfold PutObject.
    destruct (pop_fault_free _ Hff2) as (st2 & -> & Hff3 & Hobj2 & _ & _).
    split; [exact Hff3|]. right. split; [by left|]. simpl. by rewrite Hobj2.
Qed.

(** The stores of an iteration go to the key of its object. *)
Lemma entry_calls_put ctx (path : string) (bs : bytes) (cs : list StoreCall)
    (b k : string) (d : bytes) (e : option string) :
  entry_calls ctx path bs cs ->
  PutObjectCall b k d e ∈ cs ->
  b = BucketName ctx /\ k = full_key ctx path /\ d = bs.
Proof.
  intros Hcs Hin. destruct Hcs as [perr tail Hp Htail| |err mid perr tail Hp Hmid Htail].
  - apply elem_of_cons in Hin as [?|Hin]; [done|].
    apply elem_of_cons in Hin as [[= -> -> -> ->]|Hin]; [done|].
    rewrite Forall_forall in Htail. by apply Htail in Hin.
  - by apply list_elem_of_singleton in Hin.
  - apply elem_of_cons in Hin as [?|Hin]; [done|].
    apply elem_of_app in Hin as [Hin|Hin].
    { rewrite Forall_forall in Hmid. by apply Hmid in Hin. }
    apply elem_of_cons in Hin as [[= -> -> -> ->]|Hin]; [done|].
    rewrite Forall_forall in Htail. by apply Htail in Hin.
Qed.

(** The probes of an iteration are for the key of its object, which is a
    block. *)
Lemma entry_calls_head ctx (path : string) (bs : bytes) (cs : list StoreCall)
    (b k : string) (e : option string) :
  entry_calls ctx path bs cs ->
  HeadObjectCall b k e ∈ cs ->
  GoStrings.HasPrefix path "blocks/" = true /\
  b = BucketName ctx /\ k = full_key ctx path /\
  (e = None -> cs = [HeadObjectCall b k None]) /\
  (e <> None ->
     exists perr, PutObjectCall b k bs perr ∈ cs).
Proof.
  intros Hcs Hin. destruct Hcs as [perr tail Hp Htail|Hp|err mid perr tail Hp Hmid Htail].
  - apply elem_of_cons in Hin as [?|Hin]; [done|].
    apply elem_of_cons in Hin as [?|Hin]; [done|].
    rewrite Forall_forall in Htail. by apply Htail in Hin.
  - apply list_elem_of_singleton in Hin as [= -> -> ->]. done.
  - apply elem_of_cons in Hin as [[= -> -> ->]|Hin].
    { repeat split; [done..|]. intros _. exists perr.
      right. apply elem_of_app. right. left. }
    apply elem_of_app in Hin as [Hin|Hin].
    { rewrite Forall_forall in Hmid. by apply Hmid in Hin. }
    apply elem_of_cons in Hin as [?|Hin]; [done|].
    rewrite Forall_forall in Htail. by apply Htail in Hin.
Qed.

Lemma entry_calls_put_after_probe ctx (path : string) (bs : bytes)
    (pre post : list StoreCall) (b k : string) (d : bytes) (e : option string) :
  GoStrings.HasPrefix path "blocks/" = true ->
  entry_calls ctx path bs (pre ++ PutObjectCall b k d e :: post) ->
  exists err,
    HeadObjectCall (BucketName ctx) (full_key ctx path) (Some err) ∈ pre.
Proof.
  intros Hp Hcs. inversion Hcs as [perr tail Hp' _ Heq|_ Heq|err mid perr tail _ _ _ Heq].
  - congruence.
  - destruct pre as [|c [|c' pre]]; simplify_eq/=.
  - destruct pre as [|c pre]; simplify_eq/=. exists err. left.
Qed.

(** Under an object that is there and without injected failures, an
    iteration keeps the object and does not store to its key. *)
Lemma S3Save_body_keeps ctx st obj (path : string) (old : bytes) :
  GoStrings.HasPrefix path "blocks/" = true ->
  s3_objects st !! (BucketName ctx, full_key ctx path) = Some old /\
    fault_free st ->
  (s3_objects (S3Save_body ctx st obj) !! (BucketName ctx, full_key ctx path)
     = Some old /\ fault_free (S3Save_body ctx st obj)) /\
  Forall (fun c => forall d e,
            c <> PutObjectCall (BucketName ctx) (full_key ctx path) d e)
    (new_calls st (S3Save_body ctx st obj)).
Proof.
  intros Hp [Hold Hff]. destruct obj as [p bs].
  destruct (S3Save_body_fault_free ctx st p bs Hff)
    as [Hff' [(Hpp & Hsome & Hobj & Hcs)|([Hpp|Hnone] & Hobj)]].
  - rewrite Hobj, Hcs. split; [done|]. by repeat constructor.
  - assert (p <> path) as Hne by congruence.
    rewrite Hobj, lookup_insert_ne
      by (intros [= Hk]; by apply full_key_inj in Hk).
    split; [done|]. apply Forall_forall. intros c Hc d e ->.
    eapply entry_calls_put in Hc as (_ & Hk & _);
      [|apply S3Save_body_calls].
    by apply full_key_inj in Hk.
  - assert (p <> path) as Hne by congruence.
    rewrite Hobj, lookup_insert_ne
      by (intros [= Hk]; by apply full_key_inj in Hk).
    split; [done|]. apply Forall_forall. intros c Hc d e ->.
    eapply entry_calls_put in Hc as (_ & Hk & _);
      [|apply S3Save_body_calls].
    by apply full_key_inj in Hk.
Qed.

(** Without injected failures every object of the loop is there after
    it, and so is every object that was there before. *)
Lemma S3Save_range_present ctx (entries : list (string * bytes)) st
    (path : string) (bs : bytes) :
  fault_free st ->
  (path, bs) ∈ entries
    \/ is_Some (s3_objects st !! (BucketName ctx, full_key ctx path)) ->
  fault_free (S3Save_range ctx entries st) /\
  is_Some (s3_objects (S3Save_range ctx entries st)
             !! (BucketName ctx, full_key ctx path)).
Proof.
  unfold S3Save_range. revert st.
  induction entries as [|[p d] rest IH]; intros st Hff Hor; cbn [foldl].
  - destruct Hor as [?%elem_of_nil|?]; done.
  - destruct (S3Save_body_fault_free ctx st p d Hff) as [Hff' Hcase].
    apply IH; [done|].
    destruct Hor as [[[= <- <-]|Hin]%elem_of_cons|Hsome]; [|by left|].
    + right. destruct Hcase as [(_ & Hsome & -> & _)|(_ & ->)]; [done|].
      rewrite lookup_insert_eq. by eauto.
    + right. destruct Hcase as [(_ & _ & -> & _)|(_ & ->)]; [done|].
      rewrite lookup_insert. case_decide; by eauto.
Qed.

(** The loop probes the key of every block among its objects. *)
Lemma S3Save_range_probes ctx (entries : list (string * bytes)) st
    (path : string) (bs : bytes) :
  (path, bs) ∈ entries ->
  GoStrings.HasPrefix path "blocks/" = true ->
  exists err,
    HeadObjectCall (BucketName ctx) (full_key ctx path) err
      ∈ new_calls st (S3Save_range ctx entries st).
Proof.
  intros Hin Hp. unfold S3Save_range.
  destruct (loop_calls_of (S3Save_body ctx) (S3Save_body_extends ctx)
              entries st (path, bs)
              (fun c => exists err,
                 c = HeadObjectCall (BucketName ctx) (full_key ctx path) err))
    as (c & Hc & err & ->); [done| |by eauto].
  intros st0.
  destruct (S3Save_body_calls ctx st0 path bs); [congruence|..];
    eexists; (split; [left | by eauto]).
Qed.

End S3Facts.

Section LocalFacts.

Variable filepath_Join : string -> string -> string.
Variable filepath_Dir : string -> string.
Implicit Types (st : Storage) (obj : string * bytes).

Local Abbreviation body := (LocalFileSystemSave_body filepath_Join filepath_Dir).

Ltac fs_cases :=
  unfold LocalFileSystemSave_body, Stat, MkdirAll, WriteFile, store_log,
    record_call, pop_fault;
  repeat case_match; simplify_eq/=.

Lemma LocalFileSystemSave_body_extends (dir : string) st obj :
  extends st (body dir st obj).
Proof. unfold extends. fs_cases; rewrite <- ?app_assoc; eauto. Qed.

(** Every iteration starts with the existence check of its file. *)
Lemma LocalFileSystemSave_body_probes (dir : string) st (path : string)
    (bs : bytes) :
  exists serr rest,
    new_calls st (body dir st (path, bs)) =
      StatCall (filepath_Join dir path) serr :: rest.
Proof.
  unfold new_calls. fs_cases; rewrite <- ?app_assoc, drop_app_length; simpl.
  all: eauto.
Qed.

(** Under a file that is there and without injected failures, an
    iteration keeps the file and does not write to its path. *)
Lemma LocalFileSystemSave_body_keeps (dir : string) st obj (fp : string)
    (old : bytes) :
  fs_files st !! fp = Some old /\ fault_free st ->
  (fs_files (body dir st obj) !! fp = Some old /\
   fault_free (body dir st obj)) /\
  Forall (fun c => forall d e, c <> WriteFileCall fp d e)
    (new_calls st (body dir st obj)).
Proof.
  intros [Hold Hff]. destruct obj as [p bs].
  unfold LocalFileSystemSave_body, Stat.
  destruct (pop_fault_free st Hff) as (st1 & -> & Hff1 & _ & Hfs1 & Hcs1).
  rewrite Hfs1.
  destruct (fs_files st !! filepath_Join dir p) as [cur|] eqn:Hcur; simpl.
  - rewrite Hfs1. split; [done|].
    unfold new_calls. simpl. rewrite Hcs1, <- app_assoc, drop_app_length.
    by repeat constructor.
  - assert (filepath_Join dir p <> fp) as Hne by congruence.
    unfold MkdirAll.
    destruct (pop_fault_free _ (fault_free_record_call
                (StatCall (filepath_Join dir p) (Some ErrNotExist)) st1 Hff1))
      as (st2 & -> & Hff2 & _ & Hfs2 & Hcs2).
    unfold WriteFile.
    destruct (pop_fault_free _
                (fault_free_store_log Info Msg.fs_saving _
                   (fault_free_record_call
                      (MkdirAllCall (filepath_Dir (filepath_Join dir p)) None)
                      st2 Hff2)))
      as (st3 & -> & Hff3 & _ & Hfs3 & Hcs3).
    simpl in *. rewrite lookup_insert_ne by done.
    rewrite Hfs3, Hfs2, Hfs1. split; [done|].
    unfold new_calls. simpl. rewrite Hcs3, Hcs2, Hcs1, <- !app_assoc, drop_app_length.
    repeat constructor; intros d e; congruence.
Qed.

(** The loop checks the path of every object. *)
Lemma LocalFileSystemSave_range_probes (dir : string)
    (entries : list (string * bytes)) st (path : string) (bs : bytes) :
  (path, bs) ∈ entries ->
  exists serr,
    StatCall (filepath_Join dir path) serr
      ∈ new_calls st
          (LocalFileSystemSave_range filepath_Join filepath_Dir entries dir st).
Proof.
  intros Hin. unfold LocalFileSystemSave_range.
  destruct (loop_calls_of (body dir)
              (LocalFileSystemSave_body_extends dir)
              entries st (path, bs)
              (fun c => exists serr,
                 c = StatCall (filepath_Join dir path) serr))
    as (c & Hc & serr & ->); [done| |by eauto].
  intros st0.
  destruct (LocalFileSystemSave_body_probes dir st0 path bs)
    as (serr & rest & ->).
  eexists. split; [left | by eauto].
Qed.

(** Without injected failures the loop leaves a file that is there as it
    is and does not write to its path. *)
Lemma LocalFileSystemSave_range_keeps (dir : string)
    (entries : list (string * bytes)) st (fp : string) (old : bytes) :
  fs_files st !! fp = Some old -> fault_free st ->
  (forall d e,
     WriteFileCall fp d e
       ∉ new_calls st
           (LocalFileSystemSave_range filepath_Join filepath_Dir entries dir st)) /\
  fs_files (LocalFileSystemSave_range filepath_Join filepath_Dir entries dir st)
    !! fp = Some old.
Proof.
  intros Hold Hff. unfold LocalFileSystemSave_range.
  destruct (loop_invariant (body dir)
              (LocalFileSystemSave_body_extends dir)
              (fun s => fs_files s !! fp = Some old /\ fault_free s)
              (fun c => forall d e, c <> WriteFileCall fp d e)
              entries st) as [[Hkept _] Hnone]; [|done|].
  { intros st0 obj. apply LocalFileSystemSave_body_keeps. }
  split; [|done]. intros d e Hw.
  rewrite Forall_forall in Hnone. by apply (Hnone _ Hw d e).
Qed.

End LocalFacts.

Section SaverTheorems.

Variable filepath_Join : string -> string -> string.
Variable filepath_Dir : string -> string.
Implicit Types (st : Storage) (ctx : AwsContext).

(** C3 (as amended).  The S3 destination writes every object whose path
    does not begin with blocks/ without an existence check, whatever the
    state of the bucket.  The local file-system destination checks every
    path first, metadata included, and leaves a file that is there as it
    is, without a write. *)
Theorem metadata_write_per_destination ctx (dir : string)
    (entries : list (string * bytes)) st (path : string) (bs : bytes) :
  (path, bs) ∈ entries ->
  GoStrings.HasPrefix path "blocks/" = false ->
  let s3 := S3Save_range ctx entries st in
  let fs :=
    LocalFileSystemSave_range filepath_Join filepath_Dir entries dir st in
  (exists err,
     PutObjectCall (BucketName ctx) (full_key ctx path) bs err
       ∈ new_calls st s3) /\
  (forall e,
     HeadObjectCall (BucketName ctx) (full_key ctx path) e ∉ new_calls st s3) /\
  (exists serr, StatCall (filepath_Join dir path) serr ∈ new_calls st fs) /\
  (forall old,
     fs_files st !! filepath_Join dir path = Some old -> fault_free st ->
     (forall d e, WriteFileCall (filepath_Join dir path) d e ∉ new_calls st fs) /\
     fs_files fs !! filepath_Join dir path = Some old).
Proof.
  intros Hin Hp s3 fs. subst s3 fs.
  unfold S3Save_range, LocalFileSystemSave_range.
  split; [|split; [|split]].
  - destruct (loop_calls_of (S3Save_body ctx) (S3Save_body_extends ctx)
                entries st (path, bs)
                (fun c => exists err,
                   c = PutObjectCall (BucketName ctx) (full_key ctx path) bs err))
      as (c & Hc & err & ->); [done| |by eauto].
    intros st0.
    destruct (S3Save_body_calls ctx st0 path bs) as [perr tail _ _| |];
      [|congruence..].
    eexists. split; [right; left | by eauto].
  - intros e Hhead.
    apply (loop_call _ (S3Save_body_extends ctx)) in Hhead
      as ([p d] & st0 & _ & Hc & _).
    eapply entry_calls_head in Hc as (Hpp & _ & Hk & _);
      [|apply S3Save_body_calls].
    apply full_key_inj in Hk as <-. congruence.
  - by apply (LocalFileSystemSave_range_probes _ _ dir entries st path bs).
  - intros old Hold Hff. by apply LocalFileSystemSave_range_keeps.
Qed.

(** C4.  For a path that begins with blocks/ the S3 destination probes
    the key, every store to the key comes after a probe of the key that
    failed, and a block that is there is skipped: with no injected
    failure the object stays as it is and no store to its key is made, so
    after one save that had the block a later save of any object set
    makes no store to its key.  The local file-system destination checks
    the path as well and leaves a block file that is there unwritten. *)
Theorem block_saved_once ctx (dir : string)
    (entries : list (string * bytes)) st (path : string) :
  GoStrings.HasPrefix path "blocks/" = true ->
  let b := BucketName ctx in
  let k := full_key ctx path in
  let st1 := S3Save_range ctx entries st in
  let fs :=
    LocalFileSystemSave_range filepath_Join filepath_Dir entries dir st in
  (forall bs, (path, bs) ∈ entries ->
     exists err, HeadObjectCall b k err ∈ new_calls st st1) /\
  (forall pre d e post,
     new_calls st st1 = pre ++ PutObjectCall b k d e :: post ->
     exists err, HeadObjectCall b k (Some err) ∈ pre) /\
  (forall old,
     s3_objects st !! (b, k) = Some old -> fault_free st ->
     (forall d e, PutObjectCall b k d e ∉ new_calls st st1) /\
     s3_objects st1 !! (b, k) = Some old) /\
  (forall bs entries2,
     (path, bs) ∈ entries -> fault_free st ->
     forall d e,
       PutObjectCall b k d e ∉ new_calls st1 (S3Save_range ctx entries2 st1)) /\
  (forall bs, (path, bs) ∈ entries ->
     exists serr, StatCall (filepath_Join dir path) serr ∈ new_calls st fs) /\
  (forall old,
     fs_files st !! filepath_Join dir path = Some old -> fault_free st ->
     (forall d e, WriteFileCall (filepath_Join dir path) d e ∉ new_calls st fs) /\
     fs_files fs !! filepath_Join dir path = Some old).
Proof.
  intros Hp b k st1 fs.
  assert (forall (es : list (string * bytes)) s old,
            s3_objects s !! (b, k) = Some old -> fault_free s ->
            (forall d e, PutObjectCall b k d e ∉ new_calls s (S3Save_range ctx es s)) /\
            s3_objects (S3Save_range ctx es s) !! (b, k) = Some old)
    as Hkeep.
  { intros es s old Hold Hff. unfold S3Save_range.
    destruct (loop_invariant (S3Save_body ctx) (S3Save_body_extends ctx)
                (fun s => s3_objects s !! (b, k) = Some old /\ fault_free s)
                (fun c => forall d e, c <> PutObjectCall b k d e)
                es s) as [[Hkept _] Hnone]; [|done|].
    { intros st0 obj. by apply S3Save_body_keeps. }
    split; [|done]. intros d e Hput.
    rewrite Forall_forall in Hnone. by apply (Hnone _ Hput d e). }
  split; [|split; [|split; [|split; [|split]]]].
  - intros bs Hin. by apply (S3Save_range_probes ctx entries st path bs).
  - intros pre d e post Heq. subst st1. unfold S3Save_range in Heq.
    apply (loop_call_before _ (S3Save_body_extends ctx)) in Heq
      as ([p bs] & st0 & pre0 & post0 & _ & Hcs & Hsub).
    pose proof (S3Save_body_calls ctx st0 p bs) as Hgr. rewrite Hcs in Hgr.
    assert (p = path) as ->.
    { eapply entry_calls_put in Hgr as (_ & Hk & _);
        [|apply elem_of_app; right; left].
      by apply full_key_inj in Hk. }
    apply entry_calls_put_after_probe in Hgr as [err Herr]; [|done].
    exists err. by apply Hsub.
  - intros old Hold Hff. by apply Hkeep.
  - intros bs entries2 Hin Hff.
    destruct (S3Save_range_present ctx entries st path bs Hff)
      as [Hff1 [old Hold]]; [by left|].
    by apply (Hkeep entries2 st1 old).
  - intros bs Hin.
    by apply (LocalFileSystemSave_range_probes _ _ dir entries st path bs).
  - intros old Hold Hff. by apply LocalFileSystemSave_range_keeps.
Qed.

(** C10.  In the S3 destination a probe of a blocks/ key that fails,
    with whatever error, is followed by the store of the object: the
    store is left out only when the probe succeeded. *)
Theorem failed_probe_still_writes ctx (entries : list (string * bytes)) st
    (path : string) :
  GoStrings.HasPrefix path "blocks/" = true ->
  let b := BucketName ctx in
  let k := full_key ctx path in
  let st1 := S3Save_range ctx entries st in
  (forall err,
     HeadObjectCall b k (Some err) ∈ new_calls st st1 ->
     exists bs perr,
       (path, bs) ∈ entries /\ PutObjectCall b k bs perr ∈ new_calls st st1) /\
  (forall bs,
     (path, bs) ∈ entries ->
     (forall d perr, PutObjectCall b k d perr ∉ new_calls st st1) ->
     HeadObjectCall b k None ∈ new_calls st st1).
Proof.
  intros Hp b k st1.
  assert (forall err,
            HeadObjectCall b k (Some err) ∈ new_calls st st1 ->
            exists bs perr,
              (path, bs) ∈ entries /\
              PutObjectCall b k bs perr ∈ new_calls st st1) as Hfailed.
  { intros err Hhead. subst st1. unfold S3Save_range in *.
    apply (loop_call _ (S3Save_body_extends ctx)) in Hhead
      as ([p bs] & st0 & Hin & Hc & Hsub).
    eapply entry_calls_head in Hc as (_ & _ & Hk & _ & Hput);
      [|apply S3Save_body_calls].
    apply full_key_inj in Hk as <-.
    destruct Hput as [perr Hput]; [done|].
    exists bs, perr. split; [done | by apply Hsub]. }
  split; [done|].
  intros bs Hin Hnone.
  destruct (S3Save_range_probes ctx entries st path bs Hin Hp)
    as [[err|] Hhead]; [|done].
  destruct (Hfailed err Hhead) as (bs' & perr & _ & Hput).
  by apply Hnone in Hput.
Qed.

End SaverTheorems.

(** ** Start-up and whitelist refresh *)

Section MainFacts.

Context {Pk : Type} `{Countable Pk}.
Variable KeyspaceSave : ObjectsToSave -> Storage -> Storage.
Variable PostgreSQLSave : ObjectsToSave -> Storage -> Storage.
Variable filepath_Join : string -> string -> string.
Variable filepath_Dir : string -> string.

Lemma refresh_loop_snoc (fetches : list (string + Whitelist Pk))
    (f : string + Whitelist Pk) (m : WhitelistMVar Pk) :
  refresh_loop (fetches ++ [f]) m =
    refresh_iteration (refresh_loop fetches m) f.
Proof. unfold refresh_loop. by rewrite foldl_app. Qed.

Lemma refresh_loop_failures (fetches : list (string + Whitelist Pk))
    (m : WhitelistMVar Pk) :
  Forall (fun f => exists e, f = inl e) fetches ->
  refresh_loop fetches m = m.
Proof.
  unfold refresh_loop. revert m.
  induction fetches as [|f rest IH]; intros m Hall; [done|].
  apply Forall_cons in Hall as [[e ->] Hall]. simpl. by apply IH.
Qed.

(** C8.  With the whitelist enabled, a failure of the first fetch ends
    [main] in [log.Fatal] before it listens, and when [main] listens with
    a whitelist the snapshot is the list the first fetch returned.  In
    the refresh loop a failed fetch leaves the snapshot as it is, through
    any number of failures, and a successful fetch replaces it by the
    fetched list. *)
Theorem whitelist_fetch_failures (appCfg : AppConfig) (env : Startup)
    (m : WhitelistMVar Pk) (fetches : list (string + Whitelist Pk))
    (e : string) (wl : Whitelist Pk) :
  (DelegationWhitelistDisabled appCfg = false ->
   RetrieveWhitelist_init env = inl e ->
   exists msg,
     main KeyspaceSave PostgreSQLSave filepath_Join filepath_Dir appCfg env
     = Fatal msg) /\
  (forall (app : App Pk) (ac : AttemptCounter Pk) (mvar : WhitelistMVar Pk),
     main KeyspaceSave PostgreSQLSave filepath_Join filepath_Dir appCfg env
     = Listening app ac (Some mvar) ->
     RetrieveWhitelist_init env = inr (ReadWhitelist mvar)) /\
  refresh_iteration m (inl e) = m /\
  ReadWhitelist (refresh_iteration m (inr wl)) = wl /\
  (Forall (fun f => exists e', f = inl e') fetches ->
   refresh_loop fetches m = m) /\
  refresh_loop (fetches ++ [inl e]) m = refresh_loop fetches m /\
  ReadWhitelist (refresh_loop (fetches ++ [inr wl]) m) = wl.
Proof.
  split; [|split].
  - intros Hen Hinit. unfold main, main_whitelist, fatal_on.
    simpl. rewrite Hen, Hinit. repeat case_match; eauto.
  - intros app ac mvar. unfold main, main_whitelist, fatal_on.
    simpl. repeat case_match; intros [= <- <- <-]; done.
  - split; [done|]. split; [done|]. split; [apply refresh_loop_failures|].
    by rewrite !refresh_loop_snoc.
Qed.
End MainFacts.

(** ** Further properties of the path builder *)

Section PathShape.

Context {Pk : Type}.
Variable Pk_String : Pk -> string.

Lemma MakePathsImpl_None (ts h : string) (pk : Pk) :
  (String.length ts < 10)%nat -> MakePathsImpl Pk_String ts h pk = None.
Proof.
  intros Hlen. unfold MakePathsImpl, GoStrings.slice_to.
  destruct (Nat.leb_spec 10 (String.length ts)); [lia | done].
Qed.

Lemma HasPrefix_app (p s : string) : GoStrings.HasPrefix (p +:+ s) p = true.
Proof.
  unfold GoStrings.HasPrefix. induction p as [|a p IH].
  - by destruct s.
  - rewrite string_app_cons. simpl. by destruct (ascii_dec a a).
Qed.

(** The two paths of a submission are in different classes: the block
    path begins with blocks/, the metadata path does not. *)
Lemma MakePathsImpl_classes (ts h : string) (pk : Pk) (p : Paths) :
  MakePathsImpl Pk_String ts h pk = Some p ->
  Block p = "blocks/" +:+ h +:+ ".dat" /\
  GoStrings.HasPrefix (Block p) "blocks/" = true /\
  GoStrings.HasPrefix (Meta p) "blocks/" = false /\
  Meta p <> Block p.
Proof.
  intros Hp.
  destruct (Nat.lt_ge_cases (String.length ts) 10) as [Hlt|Hge].
  { by rewrite MakePathsImpl_None in Hp. }
  rewrite MakePathsImpl_Some in Hp by done. injection Hp as <-.
  cbn [Meta Block].
  split; [reflexivity|]. split; [apply HasPrefix_app|].
  split; [reflexivity|]. intros Heq. discriminate Heq.
Qed.

(** X1.  [MakePathsImpl] panics exactly on a timestamp of fewer than ten
    bytes, of which it takes the first ten for the directory of the day.
    Otherwise the block path is blocks/, the block hash and .dat, so it
    begins with blocks/, while the metadata path does not: the two paths
    of a submission differ, whatever the hash and the key. *)
Theorem MakePathsImpl_shape (ts h : string) (pk : Pk) :
  (MakePathsImpl Pk_String ts h pk = None <-> (String.length ts < 10)%nat) /\
  (forall p, MakePathsImpl Pk_String ts h pk = Some p ->
     Block p = "blocks/" +:+ h +:+ ".dat" /\
     GoStrings.HasPrefix (Block p) "blocks/" = true /\
     GoStrings.HasPrefix (Meta p) "blocks/" = false /\
     Meta p <> Block p).
Proof.
  split.
  - split; [|apply MakePathsImpl_None].
    intros Hnone. destruct (Nat.lt_ge_cases (String.length ts) 10) as [|Hge]; [done|].
    by rewrite MakePathsImpl_Some in Hnone.
  - apply MakePathsImpl_classes.
Qed.

End PathShape.

(** ** Further properties of the handler *)

Section HandlerMore.

Context {Pk : Type} `{Countable Pk} {Sig : Type}.
Variable X : Externals Pk Sig.
Implicit Types (app : App Pk) (r : Request) (w : World Pk).

Ltac hsimpl :=
  cbn [resp_status resp_body trace world fst snd
       record_attempt save WriteHeader Write log emit
       set_world start clock counter whitelist storage app
       with_Save WhitelistDisabled VerifySignatureDisabled NetworkId Save Now
       with_Body with_WriteErr with_whitelist
       ContentLength WriteErr XForwardedFor RemoteAddr].

Ltac handler_cases :=
  unfold ServeHTTP, ServeHTTP_decoded, ServeHTTP_checked, ServeHTTP_persist,
    writeErrorResponse;
  hsimpl;
  repeat (case_match; hsimpl).

Ltac conditions :=
  repeat match goal with
    | Hc : negb _ = true |- _ => apply negb_true_iff in Hc
    | Hc : negb _ = false |- _ => apply negb_false_iff in Hc
    | Hc : (_ =? _) = true |- _ => apply Z.eqb_eq in Hc
    | Hc : (_ =? _) = false |- _ => apply Z.eqb_neq in Hc
    | Hc : (_ >? _) = true |- _ => rewrite Z.gtb_ltb in Hc; apply Z.ltb_lt in Hc
    | Hc : (_ >? _) = false |- _ => rewrite Z.gtb_ltb in Hc; apply Z.ltb_ge in Hc
    | Hc : bool_decide _ = true |- _ => apply bool_decide_eq_true in Hc
    | Hc : bool_decide _ = false |- _ => apply bool_decide_eq_false in Hc
    end.

Ltac elem_cases Hin :=
  repeat (apply elem_of_cons in Hin as [Hin|Hin]; [try discriminate Hin|]);
  try (apply elem_of_nil in Hin; destruct Hin).

Ltac elem_here :=
  repeat first [apply list_elem_of_here | apply list_elem_of_further].

Ltac attempt_outcome :=
  repeat match goal with
    | Hc : (RecordAttempt _ _ _).1 = _ |- _ => rewrite Hc
    end.

(** The object set of an accepted submission has two objects. *)
Lemma toSave_two (ps : Paths) (metaBytes block : bytes) :
  Meta ps <> Block ps ->
  let toSave : ObjectsToSave :=
    <[Block ps := block]> (<[Meta ps := metaBytes]> ∅) in
  toSave !! Meta ps = Some metaBytes /\ toSave !! Block ps = Some block /\
  size toSave = 2%nat.
Proof.
  intros Hne toSave. subst toSave.
  rewrite lookup_insert_ne by done. rewrite !lookup_insert_eq.
  split; [done|]. split; [done|].
  rewrite map_size_insert_None by (by rewrite lookup_insert_ne, lookup_empty).
  rewrite map_size_insert_None by apply lookup_empty.
  by rewrite map_size_empty.
Qed.

(** What an answer with status 200 says about the run. *)
Lemma ServeHTTP_accepted app r w :
  let h := ServeHTTP X app r w in
  resp_status h = Some 200 ->
  exists req ps metaBytes,
    let toSave : ObjectsToSave :=
      <[Block ps := Block_data (Data req)]> (<[Meta ps := metaBytes]> ∅) in
    json_Unmarshal X (read_body r).1 = Some req /\
    makePaths (Pk_String X) (formatRFC3339 X) (Now app w)
      (GetBlockDataHash X req) (Submitter req) = Some ps /\
    MakeMetaToBeSaved X req (remote_addr r) = Some metaBytes /\
    resp_body h = ok_body /\
    ESave toSave ∈ trace h /\
    (forall objs, ESave objs ∈ trace h -> objs = toSave) /\
    storage (world h) = Save app toSave (storage w).
Proof.
  intros h. subst h. unfold remote_addr.
  handler_cases; conditions; attempt_outcome; intros [=].
  all: eexists _, _, _; simpl.
  all: split; [reflexivity|]; split; [eassumption|]; split; [eassumption|].
  all: split; [reflexivity|]; split; [elem_here|].
  all: split; [intros objs Hin; elem_cases Hin; by injection Hin as <- |].
  all: reflexivity.
Qed.

(** X2.  An answer with status 200 comes from the last stage only: the
    body decoded, the paths were built from the time of the freshness
    check, the metadata was encoded with the X-Forwarded-For header, or
    the address of the connection when the header is empty, the body of
    the answer is the acknowledgement, and [app.Save] ran once, on a set
    of two objects, the metadata under its path and the block bytes
    under the block path. *)
Theorem accepted_submission app r w :
  let h := ServeHTTP X app r w in
  resp_status h = Some 200 ->
  exists req ps metaBytes,
    let toSave : ObjectsToSave :=
      <[Block ps := Block_data (Data req)]> (<[Meta ps := metaBytes]> ∅) in
    json_Unmarshal X (read_body r).1 = Some req /\
    makePaths (Pk_String X) (formatRFC3339 X) (Now app w)
      (GetBlockDataHash X req) (Submitter req) = Some ps /\
    MakeMetaToBeSaved X req (remote_addr r) = Some metaBytes /\
    resp_body h = ok_body /\
    ESave toSave ∈ trace h /\
    (forall objs, ESave objs ∈ trace h -> objs = toSave) /\
    storage (world h) = Save app toSave (storage w) /\
    toSave !! Meta ps = Some metaBytes /\
    toSave !! Block ps = Some (Block_data (Data req)) /\
    size toSave = 2%nat.
Proof.
  intros h Hok.
  destruct (ServeHTTP_accepted app r w Hok)
    as (req & ps & metaBytes & Hreq & Hps & Hmeta & Hbody & Hin & Honly & Hst).
  exists req, ps, metaBytes. simpl.
  repeat (split; [done|]).
  apply toSave_two.
  by apply MakePathsImpl_classes in Hps as (_ & _ & _ & Hne).
Qed.

(** X3.  The handler never looks at what [app.Save] does: with any other
    function in its place the status, the body, the events and the
    attempt counter are the same, so a destination that fails cannot
    change the answer. *)
Theorem response_ignores_persistence app
    (save' : ObjectsToSave -> Storage -> Storage) r w :
  let h := ServeHTTP X app r w in
  let h' := ServeHTTP X (with_Save save' app) r w in
  resp_status h' = resp_status h /\ resp_body h' = resp_body h /\
  trace h' = trace h /\ counter (world h') = counter (world h).
Proof.
  intros h h'. subst h h'. handler_cases. all: done.
Qed.

(** X4.  The handler never changes the clock or the whitelist, and an
    answer with status 411, 413, 400 or 401 leaves the counter and the
    destinations as they were: nothing is recorded or stored for a
    request rejected before the rate limiter. *)
Theorem early_rejection_keeps_world app r w :
  let h := ServeHTTP X app r w in
  clock (world h) = clock w /\ whitelist (world h) = whitelist w /\
  (forall c, resp_status h = Some c ->
     c = 411 \/ c = 413 \/ c = 400 \/ c = 401 -> world h = w).
Proof.
  intros h. subst h. handler_cases.
  all: split; [reflexivity|]; split; [reflexivity|].
  all: intros c [= <-] Hc; first [reflexivity | lia].
Qed.

(** X5.  With signature verification switched off the handler neither
    builds the signing payload nor calls the verifier.  When the verifier
    says no, the answer is 401 with the invalid-signature message, and
    no attempt is recorded and nothing is saved. *)
Theorem bad_signature_rejected app r w :
  let h := ServeHTTP X app r w in
  (VerifySignatureDisabled app = true ->
     (EMakeSignPayload ∉ trace h) /\ forall ok, EVerifySig ok ∉ trace h) /\
  (EVerifySig false ∈ trace h ->
     resp_status h = Some 401 /\
     resp_body h = marshal_errorResponse X Msg.err_signature /\
     world h = w /\
     (forall pk ok, ERecordAttempt pk ok ∉ trace h) /\
     (forall objs, ESave objs ∉ trace h)).
Proof.
  intros h. subst h. handler_cases; conditions.
  all: split;
    [ intros Hoff; first [congruence
                         | split; intros; intros Hin; elem_cases Hin] |].
  all: intros Hin; elem_cases Hin.
  all: injection Hin as Hin.
  all: first [congruence
             | repeat split; intros; intros Hin'; elem_cases Hin'].
Qed.

(** X6.  An attempt that passed the rate limiter stays recorded in the
    counter whatever follows: when the request then fails (the metadata
    cannot be encoded, or the timestamp is too short for the paths), the
    attempt is spent although nothing is saved. *)
Theorem attempt_spent_before_late_failure app r w (pk : Pk) :
  let h := ServeHTTP X app r w in
  ERecordAttempt pk true ∈ trace h ->
  counter (world h) = (RecordAttempt (counter w) (clock w) pk).2 /\
  (resp_status h <> Some 200 ->
     (resp_status h = Some 500 \/ EPanic ∈ trace h) /\
     storage (world h) = storage w /\
     forall objs, ESave objs ∉ trace h).
Proof.
  intros h. subst h. handler_cases; conditions; attempt_outcome.
  all: intros Hin; elem_cases Hin.
  all: injection Hin as ->.
  all: split; [reflexivity|].
  all: intros Hne; first [done | idtac].
  all: split; [first [by left | right; elem_here] |].
  all: split; [reflexivity|].
  all: intros; intros Hin'; elem_cases Hin'.
Qed.

(** X7.  When the time formatter yields at least ten bytes, as RFC 3339
    does, the handler never panics and always sets a status, one of 200,
    400, 401, 411, 413, 429 and 500.  The status is 200 exactly when the
    objects were handed to [app.Save], and exactly then [WriteHeader] was
    not called: the 200 is the implicit status of the first write. *)
Theorem handler_always_answers app r w :
  (forall t, (10 <= String.length (formatRFC3339 X t))%nat) ->
  let h := ServeHTTP X app r w in
  (EPanic ∉ trace h) /\
  exists c,
    resp_status h = Some c /\
    (c = 200 \/ c = 400 \/ c = 401 \/ c = 411 \/ c = 413 \/ c = 429 \/ c = 500) /\
    (c = 200 <-> exists objs, ESave objs ∈ trace h) /\
    (c <> 200 <-> exists c', EWriteHeader c' ∈ trace h).
Proof.
  intros Hfmt h. subst h. handler_cases; conditions.
  all: try match goal with
         | Hp : makePaths _ _ _ _ _ = None |- _ =>
             unfold makePaths in Hp;
             rewrite MakePathsImpl_Some in Hp by apply Hfmt; discriminate Hp
         end.
  all: split; [intros Hin; elem_cases Hin|].
  all: eexists; split; [reflexivity|]; split; [lia|].
  all: split; split.
  all: try (intros [? Hin]; elem_cases Hin; fail).
  all: try (intros; eexists; elem_here; fail).
  all: try (intros; lia).
  all: try done.
Qed.

(** X8.  A failure to write the answer to the connection changes the log
    lines only: status, bytes handed to the writer, counter, destinations
    and all other events are the same as on a connection that works; in
    particular the submission is saved all the same. *)
Theorem write_failure_only_logs app r w (err : option string) :
  let h := ServeHTTP X app r w in
  let h' := ServeHTTP X app (with_WriteErr err r) w in
  resp_status h' = resp_status h /\ resp_body h' = resp_body h /\
  world h' = world h /\
  filter (fun e => negb (is_response_event e)) (trace h')
  = filter (fun e => negb (is_response_event e)) (trace h).
Proof.
  intros h h'. subst h h'. unfold ServeHTTP.
  change (read_body (with_WriteErr err r)) with (read_body r).
  handler_cases. all: repeat split; reflexivity.
Qed.

(** X9.  With the whitelist switched off the handler does not read the
    snapshot: with any other snapshot in the holder the answer and the
    events are the same and the world ends up the same but for the
    snapshot. *)
Theorem whitelist_disabled_ignores_snapshot app r w (m : WhitelistMVar Pk) :
  WhitelistDisabled app = true ->
  (forall w', Now app (with_whitelist m w') = Now app w') ->
  let h := ServeHTTP X app r w in
  let h' := ServeHTTP X app r (with_whitelist m w) in
  (EReadWhitelist ∉ trace h) /\
  resp_status h' = resp_status h /\ resp_body h' = resp_body h /\
  trace h' = trace h /\
  world h' = with_whitelist m (world h).
Proof.
  intros Hoff Hnow h h'. subst h h'.
  unfold ServeHTTP, ServeHTTP_decoded, ServeHTTP_checked, ServeHTTP_persist,
    writeErrorResponse.
  rewrite Hoff. hsimpl. rewrite Hnow.
  repeat (case_match; hsimpl).
  all: split; [intros Hin; elem_cases Hin|].
  all: done.
Qed.

End HandlerMore.

(** ** The body of the request *)

Section BodyFacts.

Context {Pk : Type} `{Countable Pk} {Sig : Type}.
Variable X : Externals Pk Sig.
Implicit Types (app : App Pk) (r : Request) (w : World Pk).

Ltac elem_cases Hin :=
  repeat (apply elem_of_cons in Hin as [Hin|Hin]; [try discriminate Hin|]);
  try (apply elem_of_nil in Hin; destruct Hin).

Lemma read_body_short r :
  Z.of_nat (length (Body r)) < ContentLength r ->
  read_body r = (Body r, BodyErr r).
Proof.
  intros Hlt. unfold read_body.
  destruct (Nat.leb_spec (Z.to_nat (ContentLength r)) (length (Body r)));
    [lia | done].
Qed.



(** X10.  A body shorter than the declared length is answered with 400
    and the body-read message, before any decoding, and leaves the world
    as it was, whether or not the stream reported an error. *)
Theorem short_body_rejected app r w :
  ContentLength r <> -1 ->
  ContentLength r <= MAX_SUBMIT_PAYLOAD_SIZE X ->
  Z.of_nat (length (Body r)) < ContentLength r ->
  let h := ServeHTTP X app r w in
  resp_status h = Some 400 /\
  resp_body h = marshal_errorResponse X Msg.err_reading_body /\
  (EUnmarshal ∉ trace h) /\ world h = w.
Proof.
  intros Hlen Hmax Hshort h. subst h. unfold ServeHTTP.
  apply Z.eqb_neq in Hlen. rewrite Hlen.
  assert ((ContentLength r >? MAX_SUBMIT_PAYLOAD_SIZE X) = false) as ->
    by (rewrite Z.gtb_ltb; by apply Z.ltb_ge).
  rewrite read_body_short by done.
  assert (negb (Z.of_nat (length (Body r)) =? ContentLength r) = true) as ->
    by (apply negb_true_iff, Z.eqb_neq; lia).
  rewrite orb_true_r. unfold writeErrorResponse.
  destruct (WriteErr r); simpl.
  all: repeat split; try reflexivity; intros Hin; elem_cases Hin.
Qed.


End BodyFacts.

Section PreviewFacts.

(** X12.  The body preview of the decode-error log line never slices out
    of range: [min] keeps the bound within the body, the preview is the
    first 200 bytes, and the whole body when it has no more than 200. *)
Theorem body_preview_in_bounds (body : bytes) :
  exists p,
    Backend.body_preview body = Some p /\
    p = take 200 body /\ (length p <= 200)%nat /\
    ((length body <= 200)%nat -> p = body).
Proof.
  unfold Backend.body_preview, Backend.slice_to, Backend.min.
  destruct (Z.ltb_spec (Z.of_nat (length body)) 200) as [Hlt|Hge].
  - assert ((0 <=? Z.of_nat (length body)) = true) as -> by (apply Z.leb_le; lia).
    rewrite Z.leb_refl. simpl. rewrite Nat2Z.id.
    eexists. split; [reflexivity|].
    rewrite !take_ge by lia. split; [done|]. split; [lia | done].
  - assert ((200 <=? Z.of_nat (length body)) = true) as -> by (apply Z.leb_le; lia).
    simpl. eexists. split; [reflexivity|].
    split; [done|]. split; [rewrite length_take; lia|].
    intros Hle. apply take_ge. lia.
Qed.

End PreviewFacts.

(** ** What the savers leave in the destinations *)

Section S3More.

Implicit Types (st : Storage) (ctx : AwsContext).

Ltac s3_cases :=
  unfold S3Save_body, HeadObject, PutObject, store_log, record_call, pop_fault;
  repeat case_match; simplify_eq/=.

(** An iteration leaves the bucket as it is or stores its object under
    its key; it leaves the files alone. *)
Lemma S3Save_body_objects ctx st (path : string) (bs : bytes) :
  (s3_objects (S3Save_body ctx st (path, bs)) = s3_objects st \/
   s3_objects (S3Save_body ctx st (path, bs)) =
     <[(BucketName ctx, full_key ctx path) := bs]> (s3_objects st)) /\
  fs_files (S3Save_body ctx st (path, bs)) = fs_files st.
Proof. s3_cases; auto. Qed.

Lemma S3Save_range_objects ctx (entries : list (string * bytes)) st
    (b k : string) :
  (forall d,
     s3_objects (S3Save_range ctx entries st) !! (b, k) = Some d ->
     s3_objects st !! (b, k) = Some d \/
     b = BucketName ctx /\
     exists path, (path, d) ∈ entries /\ k = full_key ctx path) /\
  (is_Some (s3_objects st !! (b, k)) ->
   is_Some (s3_objects (S3Save_range ctx entries st) !! (b, k))) /\
  fs_files (S3Save_range ctx entries st) = fs_files st.
Proof.
  unfold S3Save_range. revert st.
  induction entries as [|[p bs] rest IH]; intros st; cbn [foldl].
  - auto.
  - destruct (IH (S3Save_body ctx st (p, bs))) as (Hfrom & Hkeep & Hfiles).
    destruct (S3Save_body_objects ctx st p bs) as [Hobj Hfs].
    split; [|split].
    + intros d Hd. destruct (Hfrom d Hd) as [Hst|(-> & path & Hin & ->)].
      * destruct Hobj as [Hobj|Hobj]; rewrite Hobj in Hst; [by left|].
        apply lookup_insert_Some in Hst as [[[= <- <-] <-]|[_ Hst]].
        -- right. split; [done|]. exists p. split; [left | done].
        -- by left.
      * right. split; [done|]. exists path. split; [by right | done].
    + intros Hsome. apply Hkeep.
      destruct Hobj as [->| ->]; [done|].
      rewrite lookup_insert. case_decide; [by eauto | done].
    + by rewrite Hfiles.
Qed.

(** A key that is the key of no object of the loop is left as it is. *)
Lemma S3Save_range_untouched ctx (entries : list (string * bytes)) st
    (path : string) :
  (forall d, (path, d) ∉ entries) ->
  s3_objects (S3Save_range ctx entries st) !! (BucketName ctx, full_key ctx path)
  = s3_objects st !! (BucketName ctx, full_key ctx path).
Proof.
  unfold S3Save_range. revert st.
  induction entries as [|[p bs] rest IH]; intros st Hnot; cbn [foldl]; [done|].
  rewrite IH by (intros d Hd; apply (Hnot d); by right).
  destruct (S3Save_body_objects ctx st p bs) as [[->| ->] _]; [done|].
  apply lookup_insert_ne. intros [= Hk]. apply full_key_inj in Hk as ->.
  apply (Hnot bs). left.
Qed.

(** Without injected failures the loop over objects with different paths
    stores every object that is not a block already there. *)
Lemma S3Save_range_stores ctx (entries : list (string * bytes)) st
    (path : string) (bs : bytes) :
  NoDup entries.*1 ->
  (path, bs) ∈ entries ->
  fault_free st ->
  GoStrings.HasPrefix path "blocks/" = false
    \/ s3_objects st !! (BucketName ctx, full_key ctx path) = None ->
  s3_objects (S3Save_range ctx entries st) !! (BucketName ctx, full_key ctx path)
  = Some bs.
Proof.
  unfold S3Save_range. revert st.
  induction entries as [|[p d] rest IH]; intros st Hnd Hin Hff Hcond;
    cbn [foldl].
  { by apply elem_of_nil in Hin. }
  apply NoDup_cons in Hnd as [Hfresh Hnd]. simpl in Hfresh.
  destruct (S3Save_body_fault_free ctx st p d Hff) as [Hff' Hcase].
  apply elem_of_cons in Hin as [[= <- <-]|Hin].
  - assert (forall d', (path, d') ∉ rest) as Hnot.
    { intros d' Hd'. apply Hfresh. apply list_elem_of_fmap. by exists (path, d'). }
    pose proof (S3Save_range_untouched ctx rest
                  (S3Save_body ctx st (path, bs)) path Hnot) as Hun.
    unfold S3Save_range in Hun. rewrite Hun.
    destruct Hcase as [(Hp & [old Hold] & _)|(_ & ->)].
    + destruct Hcond; congruence.
    + apply lookup_insert_eq.
  - apply IH; [done..|].
    destruct Hcond as [Hp|Hnone]; [by left|]. right.
    assert (p <> path) as Hne.
    { intros ->. apply Hfresh. apply list_elem_of_fmap. by exists (path, bs). }
    destruct Hcase as [(_ & _ & -> & _)|(_ & ->)]; [done|].
    rewrite lookup_insert_ne; [done|].
    intros [= Hk]. by apply full_key_inj in Hk.
Qed.

(** Under an object that is there and without injected failures, the
    loop keeps the object and does not store to its key. *)
Lemma S3Save_range_keeps ctx (entries : list (string * bytes)) st
    (path : string) (old : bytes) :
  GoStrings.HasPrefix path "blocks/" = true ->
  s3_objects st !! (BucketName ctx, full_key ctx path) = Some old ->
  fault_free st ->
  (forall d e,
     PutObjectCall (BucketName ctx) (full_key ctx path) d e
       ∉ new_calls st (S3Save_range ctx entries st)) /\
  s3_objects (S3Save_range ctx entries st) !! (BucketName ctx, full_key ctx path)
  = Some old.
Proof.
  intros Hp Hold Hff. unfold S3Save_range.
  destruct (loop_invariant (S3Save_body ctx) (S3Save_body_extends ctx)
              (fun s => s3_objects s !! (BucketName ctx, full_key ctx path)
                        = Some old /\ fault_free s)
              (fun c => forall d e,
                 c <> PutObjectCall (BucketName ctx) (full_key ctx path) d e)
              entries st) as [[Hkept _] Hnone]; [|done|].
  { intros st0 obj. by apply S3Save_body_keeps. }
  split; [|done]. intros d e Hput.
  rewrite Forall_forall in Hnone. by apply (Hnone _ Hput d e).
Qed.

(** X13.  Whatever fails, [S3Save] deletes nothing and leaves the local
    files alone, and an object that is in a bucket afterwards was there
    before with the same bytes or is an object of the set, stored in the
    bucket of the context under the prefix, a slash and its path. *)
Theorem S3Save_writes_only_its_objects ctx (objs : ObjectsToSave) st
    (b k : string) :
  let st' := S3Save ctx objs st in
  (forall d,
     s3_objects st' !! (b, k) = Some d ->
     s3_objects st !! (b, k) = Some d \/
     b = BucketName ctx /\
     exists path, objs !! path = Some d /\ k = Prefix ctx +:+ "/" +:+ path) /\
  (is_Some (s3_objects st !! (b, k)) -> is_Some (s3_objects st' !! (b, k))) /\
  fs_files st' = fs_files st.
Proof.
  intros st'. subst st'. unfold S3Save.
  destruct (S3Save_range_objects ctx (map_to_list objs) st b k)
    as (Hfrom & Hkeep & Hfiles).
  split; [|done].
  intros d Hd. destruct (Hfrom d Hd) as [?|(-> & path & Hin & ->)]; [by left|].
  right. split; [done|]. exists path.
  split; [by apply elem_of_map_to_list | done].
Qed.

(** X14.  Without failures [S3Save] stores every object of the set that
    is not a block already there: afterwards the bucket has the bytes of
    the set under its key, replacing any earlier metadata object, while a
    block that was there keeps its old bytes. *)
Theorem S3Save_stores_objects ctx (objs : ObjectsToSave) st
    (path : string) (bs : bytes) :
  objs !! path = Some bs ->
  fault_free st ->
  let loc := (BucketName ctx, Prefix ctx +:+ "/" +:+ path) in
  let st' := S3Save ctx objs st in
  (GoStrings.HasPrefix path "blocks/" = false \/ s3_objects st !! loc = None ->
   s3_objects st' !! loc = Some bs) /\
  (GoStrings.HasPrefix path "blocks/" = true ->
   forall old, s3_objects st !! loc = Some old ->
               s3_objects st' !! loc = Some old) /\
  fault_free st'.
Proof.
  intros Hobj Hff loc st'. subst loc st'. unfold S3Save.
  split; [|split].
  - intros Hcond.
    apply (S3Save_range_stores ctx (map_to_list objs) st path bs);
      [apply NoDup_fst_map_to_list | by apply elem_of_map_to_list | done..].
  - intros Hp old Hold.
    by apply (S3Save_range_keeps ctx (map_to_list objs) st path old).
  - apply (S3Save_range_present ctx (map_to_list objs) st path bs Hff).
    left. by apply elem_of_map_to_list.
Qed.

End S3More.

Section LocalMore.

Variable filepath_Join : string -> string -> string.
Variable filepath_Dir : string -> string.
Implicit Types (st : Storage) (obj : string * bytes).

Local Abbreviation body := (LocalFileSystemSave_body filepath_Join filepath_Dir).
Local Abbreviation range := (LocalFileSystemSave_range filepath_Join filepath_Dir).

Ltac fs_cases :=
  unfold LocalFileSystemSave_body, Stat, MkdirAll, WriteFile, store_log,
    record_call, pop_fault;
  repeat case_match; simplify_eq/=.

(** An iteration leaves the files as they are or creates the file of
    its object, which was not there; it leaves the bucket alone. *)
Lemma LocalFileSystemSave_body_files (dir : string) st (path : string)
    (bs : bytes) :
  (fs_files (body dir st (path, bs)) = fs_files st \/
   fs_files st !! filepath_Join dir path = None /\
   fs_files (body dir st (path, bs)) =
     <[filepath_Join dir path := bs]> (fs_files st)) /\
  s3_objects (body dir st (path, bs)) = s3_objects st.
Proof. fs_cases; auto. Qed.

Lemma LocalFileSystemSave_range_files (dir : string)
    (entries : list (string * bytes)) st (fp : string) :
  (forall old, fs_files st !! fp = Some old ->
               fs_files (range entries dir st) !! fp = Some old) /\
  (forall d, fs_files (range entries dir st) !! fp = Some d ->
     fs_files st !! fp = Some d \/
     exists path, (path, d) ∈ entries /\ fp = filepath_Join dir path) /\
  s3_objects (range entries dir st) = s3_objects st.
Proof.
  unfold LocalFileSystemSave_range. revert st.
  induction entries as [|[p bs] rest IH]; intros st; cbn [foldl].
  - auto.
  - destruct (IH (body dir st (p, bs))) as (Hkeep & Hfrom & Hobj).
    destruct (LocalFileSystemSave_body_files dir st p bs) as [Hfs Hs3].
    split; [|split].
    + intros old Hold. apply Hkeep.
      destruct Hfs as [->|[Hnone ->]]; [done|].
      rewrite lookup_insert_ne; [done | congruence].
    + intros d Hd. destruct (Hfrom d Hd) as [Hst|(path & Hin & ->)].
      * destruct Hfs as [Hfs|[Hnone Hfs]]; rewrite Hfs in Hst; [by left|].
        apply lookup_insert_Some in Hst as [[<- <-]|[_ Hst]]; [|by left].
        right. exists p. split; [left | done].
      * right. exists path. split; [by right | done].
    + by rewrite Hobj.
Qed.

Lemma LocalFileSystemSave_body_calls (dir : string) st (path : string)
    (bs : bytes) :
  file_calls filepath_Join filepath_Dir dir path bs
    (new_calls st (body dir st (path, bs))).
Proof.
  unfold new_calls. fs_cases; rewrite <- ?app_assoc, drop_app_length; simpl.
  all: first
    [ by apply file_skipped
    | apply file_no_directory
    | apply file_written; repeat constructor ].
Qed.

Lemma file_calls_write (dir path : string) (bs : bytes)
    (pre post : list StoreCall) (fp : string) (d : bytes) (e : option string) :
  file_calls filepath_Join filepath_Dir dir path bs
    (pre ++ WriteFileCall fp d e :: post) ->
  fp = filepath_Join dir path /\ d = bs /\
  pre = [StatCall fp (Some ErrNotExist); MkdirAllCall (filepath_Dir fp) None;
         SLog Info Msg.fs_saving].
Proof.
  intros Hcs. inversion Hcs as [serr Hs Heq|e0 Heq|werr tail Htail Heq].
  - destruct pre as [|c [|c' [|c'' pre]]]; simplify_eq/=.
  - destruct pre as [|c [|c' [|c'' [|c3 pre]]]]; simplify_eq/=.
  - destruct pre as [|c [|c' [|c'' [|c3 pre]]]]; simplify_eq/=; [done|].
    exfalso. rewrite Forall_forall in Htail.
    apply (Htail (WriteFileCall fp d e)).
    apply elem_of_app. right. left.
Qed.


(** X16.  [LocalFileSystemSave] writes a file only for an object of the
    set, and only after the existence check of that path reported that
    the file does not exist and the directories were made: after a check
    that failed for another reason, or found the file, there is no
    write. *)
Theorem file_written_after_checks (objs : ObjectsToSave) (dir : string) st
    (pre post : list StoreCall) (fp : string) (d : bytes) (e : option string) :
  new_calls st (LocalFileSystemSave filepath_Join filepath_Dir objs dir st)
    = pre ++ WriteFileCall fp d e :: post ->
  (exists path, objs !! path = Some d /\ fp = filepath_Join dir path) /\
  StatCall fp (Some ErrNotExist) ∈ pre /\
  MkdirAllCall (filepath_Dir fp) None ∈ pre.
Proof.
  unfold LocalFileSystemSave, LocalFileSystemSave_range. intros Heq.
  apply (loop_call_before _ (LocalFileSystemSave_body_extends
                               filepath_Join filepath_Dir dir)) in Heq
    as ([p bs] & st0 & pre0 & post0 & Hin & Hcs & Hsub).
  pose proof (LocalFileSystemSave_body_calls dir st0 p bs) as Hgr.
  rewrite Hcs in Hgr. apply file_calls_write in Hgr as (-> & -> & ->).
  split; [|split].
  - exists p. split; [by apply elem_of_map_to_list | done].
  - apply Hsub. left.
  - apply Hsub. right. left.
Qed.

(** Without injected failures an iteration skips a file that is there and
    creates every other one. *)
Lemma LocalFileSystemSave_body_fault_free (dir : string) st (path : string)
    (bs : bytes) :
  fault_free st ->
  fault_free (body dir st (path, bs)) /\
  fs_files (body dir st (path, bs)) =
    match fs_files st !! filepath_Join dir path with
    | Some _ => fs_files st
    | None => <[filepath_Join dir path := bs]> (fs_files st)
    end.
Proof.
  intros Hff. unfold LocalFileSystemSave_body, Stat.
  destruct (pop_fault_free st Hff) as (st1 & -> & Hff1 & _ & Hfs1 & _).
  rewrite Hfs1.
  destruct (fs_files st !! filepath_Join dir path) as [cur|] eqn:Hcur; simpl.
  - split; [exact Hff1 | done].
  - unfold MkdirAll.
    destruct (pop_fault_free _ (fault_free_record_call
                (StatCall (filepath_Join dir path) (Some ErrNotExist)) st1 Hff1))
      as (st2 & -> & Hff2 & _ & Hfs2 & _).
    unfold WriteFile.
    destruct (pop_fault_free _
                (fault_free_store_log Info Msg.fs_saving _
                   (fault_free_record_call
                      (MkdirAllCall (filepath_Dir (filepath_Join dir path)) None)
                      st2 Hff2)))
      as (st3 & -> & Hff3 & _ & Hfs3 & _).
    simpl in *. split; [exact Hff3|]. by rewrite Hfs3, Hfs2, Hfs1.
Qed.

Lemma LocalFileSystemSave_range_fault_free (dir : string)
    (entries : list (string * bytes)) st :
  fault_free st -> fault_free (range entries dir st).
Proof.
  unfold LocalFileSystemSave_range. revert st.
  induction entries as [|[p bs] rest IH]; intros st Hff; cbn [foldl]; [done|].
  apply IH. by apply LocalFileSystemSave_body_fault_free.
Qed.

Lemma LocalFileSystemSave_range_creates (dir : string)
    (entries : list (string * bytes)) st (path : string) (bs : bytes) :
  (forall p d, (p, d) ∈ entries ->
     filepath_Join dir p = filepath_Join dir path -> (p, d) = (path, bs)) ->
  (path, bs) ∈ entries ->
  fault_free st ->
  fs_files st !! filepath_Join dir path = None ->
  fs_files (range entries dir st) !! filepath_Join dir path = Some bs.
Proof.
  unfold LocalFileSystemSave_range. revert st.
  induction entries as [|[p d] rest IH]; intros st Hinj Hin Hff Hnone;
    cbn [foldl].
  { by apply elem_of_nil in Hin. }
  destruct (LocalFileSystemSave_body_fault_free dir st p d Hff) as [Hff' Hfs].
  destruct (decide (filepath_Join dir p = filepath_Join dir path)) as [Heq|Hne].
  - assert ((p, d) = (path, bs)) as [= -> ->] by (apply Hinj; [left | done]).
    rewrite Hnone in Hfs.
    destruct (LocalFileSystemSave_range_files dir rest
                (body dir st (path, bs)) (filepath_Join dir path))
      as (Hkeep & _).
    apply Hkeep. rewrite Hfs. apply lookup_insert_eq.
  - apply elem_of_cons in Hin as [[= <- <-]|Hin]; [done|].
    apply IH; [|done..|].
    + intros p' d' Hin'. apply Hinj. by right.
    + rewrite Hfs. case_match; [done|]. by rewrite lookup_insert_ne.
Qed.

(** X17.  Without failures [LocalFileSystemSave] creates the missing file
    of every object of the set with the bytes of the object, when no
    other object of the set has the same joined path. *)
Theorem local_save_creates_missing (objs : ObjectsToSave) (dir : string) st
    (path : string) (bs : bytes) :
  objs !! path = Some bs ->
  (forall p, is_Some (objs !! p) ->
     filepath_Join dir p = filepath_Join dir path -> p = path) ->
  fault_free st ->
  fs_files st !! filepath_Join dir path = None ->
  let st' := LocalFileSystemSave filepath_Join filepath_Dir objs dir st in
  fs_files st' !! filepath_Join dir path = Some bs /\ fault_free st'.
Proof.
  intros Hobj Hinj Hff Hnone st'. subst st'. unfold LocalFileSystemSave.
  split; [|by apply LocalFileSystemSave_range_fault_free].
  apply LocalFileSystemSave_range_creates; [|by apply elem_of_map_to_list|done..].
  intros p d Hin%elem_of_map_to_list Heq.
  assert (p = path) as -> by (apply Hinj; [by eauto | done]).
  congruence.
Qed.

End LocalMore.

(** ** Start-up and the closure over the destinations *)

Section MainMore.

Context {Pk : Type} `{Countable Pk}.
Variable KeyspaceSave : ObjectsToSave -> Storage -> Storage.
Variable PostgreSQLSave : ObjectsToSave -> Storage -> Storage.
Variable filepath_Join : string -> string -> string.
Variable filepath_Dir : string -> string.

Local Abbreviation main' :=
  (main KeyspaceSave PostgreSQLSave filepath_Join filepath_Dir).
Local Abbreviation main_Save' :=
  (main_Save KeyspaceSave PostgreSQLSave filepath_Join filepath_Dir).

(** X18.  [main] ends in [log.Fatal] when none of S3, Keyspaces and the
    local file system is configured, also when PostgreSQL is: with a
    database that connects the message is that no storage backend is
    configured.  So when [main] listens, one of the three is
    configured. *)
Theorem main_requires_object_backend (appCfg : AppConfig) (env : Startup) :
  (Aws appCfg = None -> LocalFileSystem appCfg = None ->
   AwsKeyspaces appCfg = None ->
   (exists msg, main' appCfg env = Fatal msg) /\
   (NewPostgreSQL_err env = None ->
    main' appCfg env = Fatal "No storage backend configured!")) /\
  (forall (app : App Pk) (ac : AttemptCounter Pk)
          (wl : option (WhitelistMVar Pk)),
     main' appCfg env = Listening app ac wl ->
     is_Some (Aws appCfg) \/ is_Some (LocalFileSystem appCfg)
       \/ is_Some (AwsKeyspaces appCfg)).
Proof.
  split.
  - intros Haws Hfs Hks. unfold main, fatal_on, when_configured.
    rewrite Haws, Hfs, Hks. simpl.
    split.
    + repeat case_match; eauto.
    + intros ->. by repeat case_match.
  - intros app ac wl. unfold main, main_whitelist, fatal_on, when_configured.
    destruct (Aws appCfg), (LocalFileSystem appCfg), (AwsKeyspaces appCfg);
      simpl; eauto.
    repeat case_match; done.
Qed.

(** X19.  When [main] listens, the application is marked ready, has the
    switches and the network id of the configuration, a fresh counter
    with the configured hourly quota, a whitelist holder exactly when the
    whitelist is enabled, and the closure over the configured
    destinations in [app.Save], with the bucket of the configuration and
    the network name as prefix; and every set-up call of a configured
    backend returned without error. *)
Theorem main_listening_app (appCfg : AppConfig) (env : Startup)
    (app : App Pk) (ac : AttemptCounter Pk) (wl : option (WhitelistMVar Pk)) :
  main' appCfg env = Listening app ac wl ->
  IsReady app = true /\
  WhitelistDisabled app = DelegationWhitelistDisabled appCfg /\
  VerifySignatureDisabled app = CfgVerifySignatureDisabled appCfg /\
  NetworkId app = NetworkIdOf env /\
  ac = NewAttemptCounter (RequestsPerPkHourly env) /\
  (wl = None <-> DelegationWhitelistDisabled appCfg = true) /\
  when_configured (Aws appCfg) (LoadDefaultConfig_err env) = None /\
  when_configured (AwsKeyspaces appCfg) (InitializeKeyspaceSession_err env)
    = None /\
  when_configured (PostgreSQL appCfg) (NewPostgreSQL_err env) = None /\
  (DelegationWhitelistDisabled appCfg = false ->
   sheets_NewService_err env = None) /\
  exists awsctx,
    Save app = main_Save' appCfg awsctx /\
    (is_Some (Aws appCfg) ->
     awsctx = {| BucketName := AWSBucketName env;
                 Prefix := NetworkName appCfg |}).
Proof.
  unfold main, main_whitelist, fatal_on. cbn [WhitelistDisabled
    VerifySignatureDisabled NetworkId Save Now IsReady].
  repeat case_match; intros [= <- <- <-]; simpl.
  all: repeat (split; [done|]).
  all: eexists; split; [reflexivity|]; by intros [? ?].
Qed.

(** With the two destinations of the files at hand and none of the
    others, the closure runs the S3 saver and then the local one. *)
Lemma main_Save_two (appCfg : AppConfig) (awsctx : AwsContext)
    (a : AwsConfig) (l : LocalFileSystemConfig) (objs : ObjectsToSave)
    (st : Storage) :
  Aws appCfg = Some a -> LocalFileSystem appCfg = Some l ->
  AwsKeyspaces appCfg = None -> PostgreSQL appCfg = None ->
  main_Save' appCfg awsctx objs st =
    LocalFileSystemSave filepath_Join filepath_Dir objs (Path l)
      (S3Save awsctx objs st).
Proof. unfold main_Save. by intros -> -> -> ->. Qed.

(** X20.  With S3 and the local file system configured (and neither
    Keyspaces nor PostgreSQL), the closure in [app.Save] runs the S3
    saver and then the local one on the same set: without failures an
    object of the set ends up in the bucket (unless it is a block already
    there) and in the data directory (unless a file is already
    there). *)
Theorem main_Save_both_destinations (appCfg : AppConfig) (awsctx : AwsContext)
    (a : AwsConfig) (l : LocalFileSystemConfig) (objs : ObjectsToSave)
    (st : Storage) (path : string) (bs : bytes) :
  Aws appCfg = Some a -> LocalFileSystem appCfg = Some l ->
  AwsKeyspaces appCfg = None -> PostgreSQL appCfg = None ->
  objs !! path = Some bs ->
  (forall p, is_Some (objs !! p) ->
     filepath_Join (Path l) p = filepath_Join (Path l) path -> p = path) ->
  fault_free st ->
  let st' := main_Save' appCfg awsctx objs st in
  let loc := (BucketName awsctx, Prefix awsctx +:+ "/" +:+ path) in
  let fp := filepath_Join (Path l) path in
  (GoStrings.HasPrefix path "blocks/" = false \/ s3_objects st !! loc = None ->
   s3_objects st' !! loc = Some bs) /\
  (fs_files st !! fp = None -> fs_files st' !! fp = Some bs) /\
  (forall old, fs_files st !! fp = Some old -> fs_files st' !! fp = Some old) /\
  new_calls st st' =
    new_calls st (S3Save awsctx objs st) ++
    new_calls (S3Save awsctx objs st) st'.
Proof.
  intros Haws Hfs Hks Hpg Hobj Hinj Hff st' loc fp. subst st' loc fp.
  rewrite (main_Save_two appCfg awsctx a l objs st Haws Hfs Hks Hpg).
  unfold LocalFileSystemSave, S3Save.
  set (entries := map_to_list objs).
  assert ((path, bs) ∈ entries) as Hin by (by apply elem_of_map_to_list).
  destruct (S3Save_range_present awsctx entries st path bs Hff) as [Hff1 _];
    [by left|].
  destruct (S3Save_range_objects awsctx entries st
              (BucketName awsctx) (full_key awsctx path)) as (_ & _ & Hfiles).
  destruct (LocalFileSystemSave_range_files filepath_Join filepath_Dir (Path l)
              entries (S3Save_range awsctx entries st)
              (filepath_Join (Path l) path)) as (Hkeep & _ & Hobjs).
  split; [|split; [|split]].
  - intros Hcond. rewrite Hobjs.
    apply S3Save_range_stores; [apply NoDup_fst_map_to_list | done..].
  - intros Hnone.
    apply LocalFileSystemSave_range_creates; [|done..|by rewrite Hfiles].
    intros p d Hp%elem_of_map_to_list Heq.
    assert (p = path) as -> by (apply Hinj; [by eauto | done]).
    congruence.
  - intros old Hold. apply Hkeep. by rewrite Hfiles.
  - apply new_calls_trans.
    + apply (loop_extends _ (S3Save_body_extends awsctx)).
    + apply (loop_extends _ (LocalFileSystemSave_body_extends
                               filepath_Join filepath_Dir (Path l))).
Qed.

End MainMore.

(** ** Handler and saver together *)

Section EndToEnd.

Context {Pk : Type} `{Countable Pk} {Sig : Type}.
Variable X : Externals Pk Sig.
Implicit Types (app : App Pk) (r : Request) (w : World Pk).

(** X21.  Handler and S3 saver together: when [app.Save] is [S3Save] and
    no call fails, after an answer with status 200 the bucket has the
    metadata of the submission under its key, and the block bytes under
    the block key when no block was there; a block that was there keeps
    its bytes and no store to its key is made. *)
Theorem accepted_submission_in_bucket ctx app r w :
  (forall objs st, Save app objs st = S3Save ctx objs st) ->
  fault_free (storage w) ->
  let h := ServeHTTP X app r w in
  resp_status h = Some 200 ->
  exists req ps metaBytes,
    let bucket := s3_objects (storage (world h)) in
    let meta_loc := (BucketName ctx, full_key ctx (Meta ps)) in
    let block_loc := (BucketName ctx, full_key ctx (Block ps)) in
    json_Unmarshal X (read_body r).1 = Some req /\
    makePaths (Pk_String X) (formatRFC3339 X) (Now app w)
      (GetBlockDataHash X req) (Submitter req) = Some ps /\
    MakeMetaToBeSaved X req (remote_addr r) = Some metaBytes /\
    bucket !! meta_loc = Some metaBytes /\
    (s3_objects (storage w) !! block_loc = None ->
     bucket !! block_loc = Some (Block_data (Data req))) /\
    (forall old, s3_objects (storage w) !! block_loc = Some old ->
       bucket !! block_loc = Some old /\
       forall d e,
         PutObjectCall (BucketName ctx) (full_key ctx (Block ps)) d e
           ∉ new_calls (storage w) (storage (world h))) /\
    fault_free (storage (world h)).
Proof.
  intros Hsave Hff h Hok. subst h.
  destruct (ServeHTTP_accepted X app r w Hok)
    as (req & ps & metaBytes & Hreq & Hps & Hmeta & _ & _ & _ & Hst).
  exists req, ps, metaBytes. simpl in *.
  rewrite Hst, Hsave. unfold S3Save.
  set (toSave := <[Block ps := Block_data (Data req)]>
                   (<[Meta ps := metaBytes]> ∅)).
  pose proof Hps as Hcl. unfold makePaths in Hcl.
  apply MakePathsImpl_classes in Hcl as (_ & Hblock & Hmetap & Hne).
  destruct (toSave_two ps metaBytes (Block_data (Data req)) Hne)
    as (Hlm & Hlb & _). fold toSave in Hlm, Hlb.
  apply elem_of_map_to_list in Hlm, Hlb.
  repeat (split; [done|]).
  split; [|split; [|split]].
  - apply S3Save_range_stores; [apply NoDup_fst_map_to_list | done.. | by left].
  - intros Hnone.
    apply S3Save_range_stores; [apply NoDup_fst_map_to_list | done.. | by right].
  - intros old Hold.
    destruct (S3Save_range_keeps ctx (map_to_list toSave) (storage w)
                (Block ps) old Hblock Hold Hff) as [Hnone Hkept].
    done.
  - by apply (S3Save_range_present ctx (map_to_list toSave) (storage w)
                (Meta ps) metaBytes Hff); left.
Qed.

(** X22.  Two accepted submissions with the same block hash, the second
    served on the destinations the first left: the block is in the bucket
    when the second arrives, the second makes no store to the block key,
    and the object stays as it is. *)
Theorem same_block_stored_once ctx app r1 r2 w1 w2
    (req1 req2 : submitRequest Pk Sig) :
  (forall objs st, Save app objs st = S3Save ctx objs st) ->
  fault_free (storage w1) ->
  let h1 := ServeHTTP X app r1 w1 in
  resp_status h1 = Some 200 ->
  storage w2 = storage (world h1) ->
  let h2 := ServeHTTP X app r2 w2 in
  resp_status h2 = Some 200 ->
  json_Unmarshal X (read_body r1).1 = Some req1 ->
  json_Unmarshal X (read_body r2).1 = Some req2 ->
  GetBlockDataHash X req1 = GetBlockDataHash X req2 ->
  let key := full_key ctx ("blocks/" +:+ GetBlockDataHash X req1 +:+ ".dat") in
  is_Some (s3_objects (storage w2) !! (BucketName ctx, key)) /\
  s3_objects (storage (world h2)) !! (BucketName ctx, key)
    = s3_objects (storage w2) !! (BucketName ctx, key) /\
  (forall d e,
     PutObjectCall (BucketName ctx) key d e
       ∉ new_calls (storage w2) (storage (world h2))).
Proof.
  intros Hsave Hff h1 Hok1 Hw2 h2 Hok2 Hreq1 Hreq2 Hhash key. subst h1 h2.
  destruct (ServeHTTP_accepted X app r1 w1 Hok1)
    as (q1 & ps1 & mb1 & Hq1 & Hps1 & _ & _ & _ & _ & Hst1).
  destruct (ServeHTTP_accepted X app r2 w2 Hok2)
    as (q2 & ps2 & mb2 & Hq2 & Hps2 & _ & _ & _ & _ & Hst2).
  simpl in *. simplify_eq.
  unfold makePaths in Hps1, Hps2.
  apply MakePathsImpl_classes in Hps1 as (Hb1 & Hblock1 & _ & _).
  apply MakePathsImpl_classes in Hps2 as (Hb2 & _ & _ & _).
  rewrite <- Hhash in Hb2.
  subst key. rewrite <- Hb1.
  rewrite Hst2, Hw2, Hst1, !Hsave. unfold S3Save.
  set (toSave1 := <[Block ps1 := _]> (<[Meta ps1 := mb1]> ∅)) in *.
  set (toSave2 := <[Block ps2 := _]> (<[Meta ps2 := mb2]> ∅)) in *.
  destruct (S3Save_range_present ctx (map_to_list toSave1) (storage w1)
              (Block ps1) (Block_data (Data req1)) Hff)
    as [Hff1 [old Hold]].
  { left. apply elem_of_map_to_list. apply lookup_insert_eq. }
  split; [by eauto|].
  destruct (S3Save_range_keeps ctx (map_to_list toSave2)
              (S3Save_range ctx (map_to_list toSave1) (storage w1))
              (Block ps1) old Hblock1 Hold Hff1) as [Hnone Hkept].
  split; [by rewrite Hkept, Hold | done].
Qed.

End EndToEnd.

(** ** The theorems on the sample deployment *)

Section OnTheSample.

Import SampleStore.

Ltac elem_here :=
  repeat first [apply list_elem_of_here | apply list_elem_of_further].

Lemma MakePathsImpl_sample :
  exists p p',
    MakePathsImpl Sample.key_string "2026-11-03T00:00:10Z" "3NKabc" true = Some p /\
    MakePathsImpl Sample.key_string "2026-11-03T00:00:10Z" "3NKxyz" false = Some p' /\
    Meta p = "submissions/2026-11-03/2026-11-03T00:00:10Z-B62qAlice.json" /\
    Block p = "blocks/3NKabc.dat" /\
    Block p <> Block p' /\ Meta p <> Meta p'.
Proof.
  destruct (MakePathsImpl_deterministic_collision_free Sample.key_string
              "2026-11-03T00:00:10Z" "3NKabc" true
              "2026-11-03T00:00:10Z" "3NKxyz" false)
    as (p & p' & Hp & Hp' & Hmeta & Hblock & _ & Hb & Hm).
  - intros [] []; simpl; congruence.
  - intros []; reflexivity.
  - simpl; lia.
  - simpl; lia.
  - exists p, p'. split; [exact Hp|]. split; [exact Hp'|].
    split; [exact Hmeta|]. split; [exact Hblock|].
    split; [apply Hb | apply Hm]; congruence.
Defined.

Lemma size_gate_sample :
  let h := ServeHTTP Sample.X Sample.app
             (Sample.request 50000000 Sample.alice_body) Sample.world in
  resp_status h <> Some 413 /\ EReadBody ∈ trace h.
Proof.
  intros h.
  destruct (size_gate_strict Sample.X Sample.app
              (Sample.request 50000000 Sample.alice_body) Sample.world)
    as [_ Hmax].
  apply Hmax; [reflexivity | discriminate].
Defined.

Lemma rejection_bodies_sample :
  let h := ServeHTTP Sample.X Sample.app
             (Sample.request 50000001 Sample.alice_body) Sample.world in
  resp_status h = Some 413 /\ resp_body h = [].
Proof.
  intros h.
  destruct (rejection_bodies Sample.X Sample.app
              (Sample.request 50000001 Sample.alice_body) Sample.world)
    as (_ & Hlarge & _).
  apply Hlarge; [discriminate | reflexivity].
Defined.

(** C6, as stated, fails: the answer to a request without a declared
    length is 411 with an empty body, which is not the JSON error
    object. *)
Lemma missing_length_has_no_error_body :
  let h := ServeHTTP Sample.X Sample.app
             (Sample.request (-1) Sample.alice_body) Sample.world in
  resp_status h = Some 411 /\ resp_body h = [] /\
  ~ exists msg, resp_body h = marshal_errorResponse Sample.X msg.
Proof.
  intros h. split; [reflexivity|]. split; [reflexivity|].
  intros [msg Hmsg]. vm_compute in Hmsg. discriminate Hmsg.
Qed.

Lemma freshness_check_sample :
  let r := Sample.request 5 Sample.future_body in
  let h := ServeHTTP Sample.X Sample.app r Sample.world in
  exists req,
    json_Unmarshal Sample.X (read_body r).1 = Some req /\
    10 * Sample.SECOND = Now Sample.app Sample.world /\
    (resp_status h = Some 400 <->
       CreatedAt (Data req) > 10 * Sample.SECOND + clock_skew_tolerance Sample.X) /\
    (resp_status h = Some 400 ->
       (EMakeSignPayload ∉ trace h) /\ (forall ok, EVerifySig ok ∉ trace h) /\
       (forall pk ok, ERecordAttempt pk ok ∉ trace h) /\
       counter (world h) = counter Sample.world).
Proof.
  intros r h.
  apply (freshness_check Sample.X Sample.app r Sample.world (10 * Sample.SECOND)).
  vm_compute. elem_here.
Defined.

Lemma pipeline_order_sample :
  let r := Sample.request 5 Sample.bob_body in
  let h := ServeHTTP Sample.X Sample.app r Sample.world in
  resp_status h = Some 401 /\
  counter (world h) = counter Sample.world /\
  storage (world h) = storage Sample.world.
Proof.
  intros r h.
  destruct (pipeline_order Sample.X Sample.app r Sample.world)
    as (_ & _ & _ & Hwl).
  destruct (Hwl (mkReq false tt
                   (mkData (10 * Sample.SECOND) [x62; x6c; x6b] [])))
    as (Hst & Hc & Hs & _).
  - vm_compute. elem_here.
  - reflexivity.
  - vm_compute. set_solver.
  - split; [exact Hst|]. split; [exact Hc | exact Hs].
Defined.

Lemma rate_limit_quota_sample :
  (RecordAttempts (NewAttemptCounter (Pk:=bool) 2)
     ((fun t => (t, true)) <$> [0; 1; 2])).1 = [true; true; false] /\
  (RecordAttempt
     (RecordAttempts (NewAttemptCounter (Pk:=bool) 2)
        ((fun t => (t, true)) <$> [0; 1; 2])).2
     (3 * ONE_HOUR) true).1 = true.
Proof.
  destruct (rate_limit_quota Sample.X (NewAttemptCounter 2) true 0
              (3 * ONE_HOUR) [0; 1; 2] [] Sample.app
              (Sample.request 5 Sample.alice_body) Sample.world)
    as (Hrun & _ & Hagain & _).
  - simpl; lia.
  - reflexivity.
  - repeat constructor; simpl; unfold ONE_HOUR; lia.
  - simpl. constructor.
  - repeat constructor; simpl; unfold ONE_HOUR; lia.
  - split; [exact Hrun | exact Hagain].
Defined.

Lemma whitelist_fetch_failures_sample :
  exists msg,
    main (Pk:=bool) (fun _ st => st) (fun _ st => st)
      Sample.filepath_Join Sample.filepath_Dir
      Sample.appCfg (Sample.startup (inl "sheets: 503")) = Fatal msg.
Proof.
  destruct (whitelist_fetch_failures (Pk:=bool) (fun _ st => st) (fun _ st => st)
              Sample.filepath_Join Sample.filepath_Dir
              Sample.appCfg (Sample.startup (inl "sheets: 503"))
              {| snapshot := ∅ |} [] "sheets: 503" ∅) as (Hfatal & _).
  apply Hfatal; reflexivity.
Defined.

(** C3, as stated, fails: the local file-system destination checks a
    metadata path like any other, and with the file there it logs and
    goes on without a write; the file keeps its old content. *)
Lemma local_save_keeps_existing_metadata :
  let fp := Sample.filepath_Join "data" meta_path in
  let st' :=
    LocalFileSystemSave Sample.filepath_Join Sample.filepath_Dir
      {[ meta_path := new_bytes ]} "data" with_meta_file in
  GoStrings.HasPrefix meta_path "blocks/" = false /\
  calls st' = [StatCall fp None; SLog Warn Msg.fs_exists] /\
  fs_files st' !! fp = Some old_bytes.
Proof. vm_compute. repeat split; reflexivity. Qed.

Lemma metadata_write_sample :
  exists err,
    PutObjectCall (BucketName Sample.awsctx)
      (full_key Sample.awsctx meta_path) new_bytes err
    ∈ new_calls Sample.empty_storage
        (S3Save_range Sample.awsctx
           [(block_path, old_bytes); (meta_path, new_bytes)]
           Sample.empty_storage).
Proof.
  destruct (metadata_write_per_destination Sample.filepath_Join
              Sample.filepath_Dir Sample.awsctx "data"
              [(block_path, old_bytes); (meta_path, new_bytes)]
              Sample.empty_storage meta_path new_bytes)
    as (Hput & _).
  - elem_here.
  - reflexivity.
  - exact Hput.
Defined.

Lemma block_saved_once_sample :
  s3_objects
    (S3Save_range Sample.awsctx
       [(meta_path, new_bytes); (block_path, new_bytes)] with_block)
    !! (BucketName Sample.awsctx, full_key Sample.awsctx block_path)
  = Some old_bytes.
Proof.
  destruct (block_saved_once Sample.filepath_Join Sample.filepath_Dir
              Sample.awsctx "data"
              [(meta_path, new_bytes); (block_path, new_bytes)]
              with_block block_path)
    as (_ & _ & Hkeep & _).
  - reflexivity.
  - destruct (Hkeep old_bytes) as [_ Hold].
    + reflexivity.
    + unfold fault_free. simpl. constructor.
    + exact Hold.
Defined.

Lemma failed_probe_sample :
  exists bs perr,
    (block_path, bs) ∈ [(block_path, new_bytes)] /\
    PutObjectCall (BucketName Sample.awsctx)
      (full_key Sample.awsctx block_path) bs perr
    ∈ new_calls access_denied
        (S3Save_range Sample.awsctx [(block_path, new_bytes)] access_denied).
Proof.
  destruct (failed_probe_still_writes Sample.awsctx
              [(block_path, new_bytes)] access_denied block_path)
    as (Hfailed & _).
  - reflexivity.
  - apply (Hfailed "api error AccessDenied: Access Denied").
    vm_compute. elem_here.
Defined.

End OnTheSample.

(** ** The further theorems on the sample deployment *)

Section OnTheSampleMore.

Import SampleStore.

Ltac elem_here :=
  repeat first [apply list_elem_of_here | apply list_elem_of_further].

Lemma accepted_submission_sample :
  let r := Sample.request 5 Sample.alice_body in
  let h := ServeHTTP Sample.X Sample.app r Sample.world in
  exists ps metaBytes,
    Meta ps = "submissions/2026-11-03/2026-11-03T00:00:10Z-B62qAlice.json" /\
    Block ps = "blocks/blk.dat" /\
    metaBytes = GoStrings.to_bytes "10.0.0.7:4242" /\
    resp_body h = ok_body /\
    ESave (<[Block ps := [x62; x6c; x6b]]> (<[Meta ps := metaBytes]> ∅))
      ∈ trace h.
Proof.
  intros r h.
  destruct (accepted_submission Sample.X Sample.app r Sample.world)
    as (req & ps & metaBytes & Hreq & Hps & Hmeta & Hbody & Hsave & _).
  - reflexivity.
  - injection Hreq as <-. injection Hps as <-. injection Hmeta as <-.
    exists {| Meta := "submissions/2026-11-03/2026-11-03T00:00:10Z-B62qAlice.json";
              Block := "blocks/blk.dat" |}, (GoStrings.to_bytes "10.0.0.7:4242").
    split; [reflexivity|]. split; [reflexivity|]. split; [reflexivity|].
    split; [exact Hbody | exact Hsave].
Defined.

Lemma early_rejection_sample :
  let r := Sample.request 5 Sample.bob_body in
  world (ServeHTTP Sample.X Sample.app r Sample.world) = Sample.world.
Proof.
  intros r.
  destruct (early_rejection_keeps_world Sample.X Sample.app r Sample.world)
    as (_ & _ & Hsame).
  apply (Hsame 401); [reflexivity | lia].
Defined.

Lemma bad_signature_sample :
  let r := Sample.request 5 Sample.alice_body in
  let h := ServeHTTP (SampleMore.X_with false true) Sample.app r Sample.world in
  resp_status h = Some 401 /\ world h = Sample.world.
Proof.
  intros r h.
  destruct (bad_signature_rejected (SampleMore.X_with false true) Sample.app r
              Sample.world) as [_ Hbad].
  destruct Hbad as (Hst & _ & Hw & _).
  - vm_compute. elem_here.
  - split; [exact Hst | exact Hw].
Defined.

Lemma attempt_spent_sample :
  let r := Sample.request 5 Sample.alice_body in
  let h := ServeHTTP (SampleMore.X_with true false) Sample.app r Sample.world in
  resp_status h = Some 500 /\
  counter (world h)
  = (RecordAttempt (counter Sample.world) (clock Sample.world) true).2 /\
  storage (world h) = storage Sample.world.
Proof.
  intros r h.
  destruct (attempt_spent_before_late_failure (SampleMore.X_with true false)
              Sample.app r Sample.world true) as [Hc Hlate].
  - vm_compute. elem_here.
  - destruct Hlate as (_ & Hst & _); [discriminate|].
    split; [reflexivity|]. split; [exact Hc | exact Hst].
Defined.

Lemma handler_always_answers_sample :
  let h := ServeHTTP Sample.X Sample.app
             (Sample.request 5 Sample.future_body) Sample.world in
  EPanic ∉ trace h.
Proof.
  intros h.
  destruct (handler_always_answers Sample.X Sample.app
              (Sample.request 5 Sample.future_body) Sample.world) as [Hno _].
  - intros t. vm_compute. lia.
  - exact Hno.
Defined.

Lemma whitelist_disabled_sample :
  let r := Sample.request 5 Sample.bob_body in
  let h := ServeHTTP Sample.X SampleMore.open_app r Sample.world in
  let h' := ServeHTTP Sample.X SampleMore.open_app r
              (with_whitelist {| snapshot := ∅ |} Sample.world) in
  resp_status h' = resp_status h /\ trace h' = trace h.
Proof.
  intros r h h'.
  destruct (whitelist_disabled_ignores_snapshot Sample.X SampleMore.open_app r
              Sample.world {| snapshot := ∅ |}) as (_ & Hst & _ & Htr & _).
  - reflexivity.
  - reflexivity.
  - split; [exact Hst | exact Htr].
Defined.

Lemma short_body_sample :
  let h := ServeHTTP Sample.X Sample.app
             (Sample.request 9 Sample.alice_body) Sample.world in
  resp_status h = Some 400 /\
  resp_body h = marshal_errorResponse Sample.X Msg.err_reading_body.
Proof.
  intros h.
  destruct (short_body_rejected Sample.X Sample.app
              (Sample.request 9 Sample.alice_body) Sample.world)
    as (Hst & Hb & _).
  - discriminate.
  - vm_compute. discriminate.
  - simpl. lia.
  - split; [exact Hst | exact Hb].
Defined.


Lemma body_preview_sample :
  Backend.body_preview Sample.alice_body = Some Sample.alice_body.
Proof.
  destruct (body_preview_in_bounds Sample.alice_body)
    as (p & Hp & _ & _ & Hall).
  rewrite Hp, Hall; [reflexivity | simpl; lia].
Defined.

Lemma MakePathsImpl_shape_sample :
  MakePathsImpl Sample.key_string "2026-11-03" "3NKabc" true
  = Some {| Meta := "submissions/2026-11-03/2026-11-03-B62qAlice.json";
            Block := "blocks/3NKabc.dat" |} /\
  MakePathsImpl Sample.key_string "2026-11-0" "3NKabc" true = None.
Proof.
  split; [reflexivity|].
  apply (MakePathsImpl_shape Sample.key_string "2026-11-0" "3NKabc" true).
  simpl. lia.
Defined.

Lemma S3Save_writes_only_sample :
  s3_objects (S3Save Sample.awsctx {[ meta_path := new_bytes ]} with_block)
    !! ("uptime", "mainnet/blocks/3NKabc.dat") = Some old_bytes.
Proof.
  destruct (S3Save_writes_only_its_objects Sample.awsctx
              {[ meta_path := new_bytes ]} with_block
              "uptime" "mainnet/blocks/3NKabc.dat") as (Hfrom & _ & _).
  destruct (Hfrom old_bytes) as [Hold|(_ & path & Hin & Hk)].
  - reflexivity.
  - reflexivity.
  - reflexivity.
Defined.

Lemma S3Save_stores_sample :
  s3_objects
    (S3Save Sample.awsctx
       (<[block_path := new_bytes]> {[ meta_path := new_bytes ]})
       Sample.empty_storage)
    !! ("uptime", "mainnet/" +:+ block_path) = Some new_bytes.
Proof.
  destruct (S3Save_stores_objects Sample.awsctx
              (<[block_path := new_bytes]> {[ meta_path := new_bytes ]})
              Sample.empty_storage block_path new_bytes) as (Hstore & _ & _).
  - reflexivity.
  - constructor.
  - apply Hstore. right. reflexivity.
Defined.


Lemma file_written_after_checks_sample :
  StatCall (Sample.filepath_Join "data" block_path) (Some ErrNotExist)
    ∈ [StatCall (Sample.filepath_Join "data" block_path) (Some ErrNotExist);
       MkdirAllCall
         (Sample.filepath_Dir (Sample.filepath_Join "data" block_path)) None;
       SLog Info Msg.fs_saving].
Proof.
  destruct (file_written_after_checks Sample.filepath_Join Sample.filepath_Dir
              {[ block_path := new_bytes ]} "data" Sample.empty_storage
              [StatCall (Sample.filepath_Join "data" block_path)
                 (Some ErrNotExist);
               MkdirAllCall
                 (Sample.filepath_Dir (Sample.filepath_Join "data" block_path))
                 None;
               SLog Info Msg.fs_saving]
              [] (Sample.filepath_Join "data" block_path) new_bytes None)
    as (_ & Hstat & _).
  - reflexivity.
  - exact Hstat.
Defined.

Lemma local_save_creates_sample :
  fs_files
    (LocalFileSystemSave Sample.filepath_Join Sample.filepath_Dir
       {[ block_path := new_bytes ]} "data" with_meta_file)
    !! Sample.filepath_Join "data" block_path = Some new_bytes.
Proof.
  destruct (local_save_creates_missing Sample.filepath_Join
              Sample.filepath_Dir {[ block_path := new_bytes ]} "data"
              with_meta_file block_path new_bytes) as [Hnew _].
  - reflexivity.
  - intros p [d [<- _]%lookup_singleton_Some] _. reflexivity.
  - constructor.
  - reflexivity.
  - exact Hnew.
Defined.

Lemma main_requires_object_backend_sample :
  main (Pk:=bool) (fun _ st => st) (fun _ st => st)
    Sample.filepath_Join Sample.filepath_Dir
    SampleMore.postgres_only (Sample.startup (inr ∅))
  = Fatal "No storage backend configured!".
Proof.
  destruct (main_requires_object_backend (Pk:=bool)
              (fun _ st => st) (fun _ st => st)
              Sample.filepath_Join Sample.filepath_Dir
              SampleMore.postgres_only (Sample.startup (inr ∅)))
    as [Hnone _].
  destruct Hnone as [_ Hmsg]; [reflexivity..|].
  apply Hmsg. reflexivity.
Defined.

Lemma main_listening_sample :
  exists app ac wl,
    main (Pk:=bool) (fun _ st => st) (fun _ st => st)
      Sample.filepath_Join Sample.filepath_Dir
      Sample.appCfg (Sample.startup (inr {[ true ]}))
    = Listening app ac wl /\
    IsReady app = true /\ ac = NewAttemptCounter 120 /\ wl <> None.
Proof.
  eexists _, _, _. split; [reflexivity|].
  match goal with
  | |- IsReady ?a = true /\ ?c = _ /\ ?m <> None =>
      destruct (main_listening_app (Pk:=bool) (fun _ st => st) (fun _ st => st)
                  Sample.filepath_Join Sample.filepath_Dir
                  Sample.appCfg (Sample.startup (inr {[ true ]})) a c m)
        as (Hready & _ & _ & _ & Hac & Hwl & _)
  end.
  - reflexivity.
  - split; [exact Hready|]. split; [exact Hac|].
    intros Hnone. apply Hwl in Hnone. discriminate Hnone.
Defined.

Lemma main_Save_both_sample :
  let st' :=
    main_Save (fun _ st => st) (fun _ st => st)
      Sample.filepath_Join Sample.filepath_Dir
      SampleMore.two_backends Sample.awsctx
      {[ meta_path := new_bytes ]} Sample.empty_storage in
  s3_objects st' !! ("uptime", "mainnet/" +:+ meta_path) = Some new_bytes /\
  fs_files st' !! Sample.filepath_Join "data" meta_path = Some new_bytes.
Proof.
  intros st'.
  destruct (main_Save_both_destinations (fun _ st => st) (fun _ st => st)
              Sample.filepath_Join Sample.filepath_Dir
              SampleMore.two_backends Sample.awsctx
              {| Region := "us-west-2" |} {| Path := "data" |}
              {[ meta_path := new_bytes ]} Sample.empty_storage
              meta_path new_bytes) as (Hs3 & Hfs & _).
  - reflexivity.
  - reflexivity.
  - reflexivity.
  - reflexivity.
  - reflexivity.
  - intros p [d [<- _]%lookup_singleton_Some] _. reflexivity.
  - constructor.
  - split; [apply Hs3; by left | apply Hfs; reflexivity].
Defined.

Lemma accepted_submission_in_bucket_sample :
  let r := Sample.request 5 Sample.alice_body in
  let h := ServeHTTP Sample.X Sample.app r Sample.world in
  s3_objects (storage (world h)) !! ("uptime", "mainnet/" +:+ meta_path)
  = Some (GoStrings.to_bytes "10.0.0.7:4242") /\
  s3_objects (storage (world h)) !! ("uptime", "mainnet/blocks/blk.dat")
  = Some [x62; x6c; x6b].
Proof.
  intros r h.
  destruct (accepted_submission_in_bucket Sample.X Sample.awsctx Sample.app r
              Sample.world)
    as (req & ps & metaBytes & Hreq & Hps & Hmeta & Hm & Hb & _).
  - reflexivity.
  - constructor.
  - reflexivity.
  - injection Hreq as <-. injection Hps as <-. injection Hmeta as <-.
    split; [exact Hm | apply Hb; reflexivity].
Defined.

Lemma same_block_stored_once_sample :
  let r := Sample.request 5 Sample.alice_body in
  let h1 := ServeHTTP Sample.X Sample.app r Sample.world in
  let h2 := ServeHTTP Sample.X Sample.app r (world h1) in
  resp_status h2 = Some 200 /\
  s3_objects (storage (world h2)) !! ("uptime", "mainnet/blocks/blk.dat")
  = s3_objects (storage (world h1)) !! ("uptime", "mainnet/blocks/blk.dat") /\
  is_Some
    (s3_objects (storage (world h1)) !! ("uptime", "mainnet/blocks/blk.dat")).
Proof.
  intros r h1 h2.
  destruct (same_block_stored_once Sample.X Sample.awsctx Sample.app r r
              Sample.world (world h1)
              (mkReq true tt (mkData (10 * Sample.SECOND) [x62; x6c; x6b] []))
              (mkReq true tt (mkData (10 * Sample.SECOND) [x62; x6c; x6b] [])))
    as (Hsome & Hsame & _).
  - reflexivity.
  - constructor.
  - reflexivity.
  - reflexivity.
  - reflexivity.
  - reflexivity.
  - reflexivity.
  - reflexivity.
  - split; [reflexivity|]. split; [exact Hsame | exact Hsome].
Defined.

End OnTheSampleMore.
